(** * FrecentHistory: the frecency-ranked history store of frecent_history.py

    A shallow embedding of the history store of the Sublime Text plugin
    (src/frecent_history.py): history entries, the frecency score, the merge
    of two histories, the eviction of low-ranked entries, the load and save
    of the persisted store, visit recording and the score normalisation of
    the quick panel.

    Python values are modelled as follows.
    - [int] is [Z].
    - [float] is IEEE 754 binary64, through the Standard Library's
      executable specification [SpecFloat] at precision 53 and maximal
      exponent 1024.
    - A [dict] is an association list in insertion order (Python dicts
      iterate in insertion order, and [sorted] is stable with respect to it).
    - An exception is a value of [exn]; a function that may raise returns a
      [result].  Functions on the global state return the state reached
      together with the way the call ended, since what a call has mutated
      stays mutated when an exception leaves it.
    - History entries are held by value.  In the source a window history
      shares its entry objects with the master history; the properties
      below read entries through the master history and through the
      persisted file only.
    - Logging ([log_debug], [timed_operation]) is left out. *)

From Stdlib Require Import ZArith List String Bool Lia Permutation.
From Stdlib Require Import QArith Qpower Lqa SpecFloat.
Import ListNotations.
Local Open Scope Z_scope.

(** ** Exceptions *)

Inductive exn : Type :=
| IOError
| JSONDecodeError
| ZeroDivisionError
| OverflowError.

Inductive result (A : Type) : Type :=
| Ok (a : A)
| Raise (e : exn).

Arguments Ok {A} a.
Arguments Raise {A} e.

Definition bind {A B : Type} (r : result A) (k : A -> result B) : result B :=
  match r with
  | Ok a => k a
  | Raise e => Raise e
  end.

Notation "x <- r ;; k" := (bind r (fun x => k))
  (at level 61, r at next level, right associativity).

Fixpoint mapM {A B : Type} (f : A -> result B) (l : list A) : result (list B) :=
  match l with
  | [] => Ok []
  | a :: l' => b <- f a ;; bs <- mapM f l' ;; Ok (b :: bs)
  end.

(** ** Python floats *)

Module PyFloat.

Definition prec : Z := 53.
Definition emax : Z := 1024.

Definition float : Type := spec_float.

(** [float(z)] for an int [z]: the nearest binary64 value. *)
Definition of_int (z : Z) : float := binary_normalize prec emax z 0 false.

(** An int as an unrounded significand with exponent 0. *)
Definition raw (z : Z) : float :=
  match z with
  | Z0 => S754_zero false
  | Zpos p => S754_finite false p 0
  | Zneg p => S754_finite true p 0
  end.

Definition mul : float -> float -> float := SFmul prec emax.
Definition add : float -> float -> float := SFadd prec emax.
Definition ltb : float -> float -> bool := SFltb.

Definition is_zero (f : float) : bool :=
  match f with
  | S754_zero _ => true
  | _ => false
  end.

(** [a / b] on ints: the exact quotient, rounded once to the nearest
    binary64 value; [ZeroDivisionError] for [b = 0] and [OverflowError]
    when the quotient is too large for a float. *)
Definition int_truediv (a b : Z) : result float :=
  if b =? 0 then Raise ZeroDivisionError
  else match SFdiv prec emax (raw a) (raw b) with
       | S754_infinity _ => Raise OverflowError
       | q => Ok q
       end.

(** [x / y] on floats: IEEE division, except that a zero divisor raises. *)
Definition truediv (x y : float) : result float :=
  if is_zero y then Raise ZeroDivisionError
  else Ok (SFdiv prec emax x y).

(** The rational number a finite float denotes. *)
Definition to_Q (f : float) : Q :=
  match f with
  | S754_finite s m e =>
      (inject_Z (if s then Zneg m else Zpos m) * Qpower 2 e)%Q
  | _ => 0%Q
  end.

(** [n > f] for an int [n] and a float [f]; Python compares the two
    exactly, without rounding [n] to a float. *)
Definition int_gt (n : Z) (f : float) : bool :=
  match f with
  | S754_nan => false
  | S754_infinity s => s
  | _ => match Qcompare (to_Q f) (inject_Z n) with
         | Lt => true
         | _ => false
         end
  end.

(** The literal [0.7]: 6305039478318694 * 2^-53. *)
Definition seven_tenths : float := S754_finite false 6305039478318694 (-53).

End PyFloat.

(** ** Dicts in insertion order *)

Section Dict.
Context {V : Type}.

Definition dict : Type := list (string * V).

Fixpoint dict_get (d : dict) (k : string) : option V :=
  match d with
  | [] => None
  | (k', v) :: d' => if String.eqb k k' then Some v else dict_get d' k
  end.

(** [d[k] = v]: an existing key keeps its place, a new key goes last. *)
Fixpoint dict_set (d : dict) (k : string) (v : V) : dict :=
  match d with
  | [] => [(k, v)]
  | (k', v') :: d' =>
      if String.eqb k k' then (k', v) :: d' else (k', v') :: dict_set d' k v
  end.

(** [d.pop(k, None)] *)
Fixpoint dict_pop (d : dict) (k : string) : dict :=
  match d with
  | [] => []
  | (k', v') :: d' =>
      if String.eqb k k' then d' else (k', v') :: dict_pop d' k
  end.

(** [d.update(other)] *)
Definition dict_update (d other : dict) : dict :=
  fold_left (fun acc kv => dict_set acc (fst kv) (snd kv)) other d.

(** [dict(items)] *)
Definition dict_of_items (items : list (string * V)) : dict :=
  dict_update [] items.

Definition keys (d : dict) : list string := map fst d.

(** The lists that stand for a dict: every key once. *)
Definition dict_wf (d : dict) : Prop := NoDup (keys d).

End Dict.

Arguments dict V : clear implicits.

(** ** History entries *)

Record entry : Type := mk_entry {
  added : Z;
  last_seen : Z;
  inserts : Z
}.

Definition history : Type := dict entry.

(** [new_history_entry()]; [clock] is what [get_time_seconds()] returns. *)
Definition new_history_entry (clock : Z) : entry :=
  {| added := clock; last_seen := clock; inserts := 0 |}.

(** ** Frecency *)

Definition SECONDS_PER_MINUTE : Z := 60.
Definition SECONDS_PER_HOUR : Z := SECONDS_PER_MINUTE * 60.
Definition SECONDS_PER_DAY : Z := SECONDS_PER_HOUR * 24.
Definition SECONDS_PER_WEEK : Z := SECONDS_PER_DAY * 7.

Definition recency_score (ds : Z) : Z :=
  if ds <? SECONDS_PER_MINUTE then 8
  else if ds <? SECONDS_PER_HOUR then 6
  else if ds <? SECONDS_PER_DAY then 4
  else if ds <? SECONDS_PER_WEEK then 2
  else 1.

Definition frecency (age count : Z) : result PyFloat.float :=
  q <- PyFloat.int_truediv count age ;;
  Ok (PyFloat.mul q (PyFloat.of_int (recency_score age))).

Definition entry_age (e : entry) (now : Z) : Z :=
  Z.max 100 (now - last_seen e).

Definition entry_frecency (e : entry) (now : Z) : result PyFloat.float :=
  frecency (entry_age e now) (inserts e).

(** ** Eviction *)

(** [sorted(items, key=..., reverse=True)].  CPython computes every key
    first, then sorts on the keys with [<] only; the sort is stable and
    [reverse=True] keeps the input order of items with equal keys.  The
    keys here are never NaN, so [<] orders them and the result is the one
    stable descending arrangement, which insertion from the right builds. *)
Section Sorted.
Context {A : Type}.

Fixpoint insert_desc (x : PyFloat.float * A) (l : list (PyFloat.float * A))
  : list (PyFloat.float * A) :=
  match l with
  | [] => [x]
  | y :: l' =>
      if PyFloat.ltb (fst x) (fst y) then y :: insert_desc x l' else x :: l
  end.

Definition sort_desc (l : list (PyFloat.float * A)) : list (PyFloat.float * A) :=
  fold_right insert_desc [] l.

Definition with_keys (key : A -> result PyFloat.float) (l : list A)
  : result (list (PyFloat.float * A)) :=
  mapM (fun a => k <- key a ;; Ok (k, a)) l.

Definition sorted_reverse (key : A -> result PyFloat.float) (l : list A)
  : result (list A) :=
  ks <- with_keys key l ;; Ok (map snd (sort_desc ks)).

(** [l[:n]]: a negative [n] counts from the end. *)
Definition slice_to (n : Z) (l : list A) : list A :=
  if n <? 0 then firstn (List.length l - Z.to_nat (- n)) l
  else firstn (Z.to_nat n) l.

End Sorted.

Definition limit_entries (entries : history) (n now : Z) : result history :=
  ranked <- sorted_reverse (fun x => entry_frecency (snd x) now) entries ;;
  Ok (dict_of_items (slice_to n ranked)).

(** ** Merge *)

Definition merge_entry (mergee_entry merger_entry : entry) : entry :=
  {| added := Z.min (added mergee_entry) (added merger_entry);
     last_seen := Z.max (last_seen mergee_entry) (last_seen merger_entry);
     inserts := Z.max (inserts mergee_entry) (inserts merger_entry) |}.

(** One turn of the loop of [merge_histories]. *)
Definition merge_step (mergee_history : history) (item : string * entry)
  : history :=
  let (path, merger_entry) := item in
  match dict_get mergee_history path with
  | Some mergee_entry =>
      dict_set mergee_history path (merge_entry mergee_entry merger_entry)
  | None => dict_set mergee_history path merger_entry
  end.

(** [merge_histories] updates [mergee_history] in place; the function
    returns the updated dict. *)
Definition merge_histories (mergee_history merger_history : history)
  : history :=
  fold_left merge_step merger_history mergee_history.

(** ** Global state and the persisted store *)

Definition SAVE_EVERY : Z := 50.

Record global_state : Type := mk_state {
  master_history : history;
  window_histories : list (Z * history);
  active : bool;
  paths_to_remove : list string;
  (** the index last drawn from [itertools.cycle(range(SAVE_EVERY))] *)
  save_cycle : Z
}.

(** What is found at the history path. *)
Inductive store_file : Type :=
| NoFile                  (** nothing there *)
| Unreadable              (** [open] fails with an [IOError] *)
| NotJson                 (** text that [json.load] rejects, the empty file included *)
| Stored (h : history).   (** a JSON object of entries *)

Record world : Type := mk_world {
  state : global_state;
  disk : store_file
}.

Inductive outcome : Type :=
| Returned
| Raised (e : exn).

(** The state at import: [true_every] has drawn index 0 and thrown it away. *)
Definition initial_state : global_state :=
  {| master_history := [];
     window_histories := [];
     active := false;
     paths_to_remove := [];
     save_cycle := 0 |}.

Definition set_master (st : global_state) (m : history) : global_state :=
  {| master_history := m;
     window_histories := window_histories st;
     active := active st;
     paths_to_remove := paths_to_remove st;
     save_cycle := save_cycle st |}.

Definition set_windows (st : global_state) (ws : list (Z * history))
  : global_state :=
  {| master_history := master_history st;
     window_histories := ws;
     active := active st;
     paths_to_remove := paths_to_remove st;
     save_cycle := save_cycle st |}.

Definition set_active (st : global_state) (b : bool) : global_state :=
  {| master_history := master_history st;
     window_histories := window_histories st;
     active := b;
     paths_to_remove := paths_to_remove st;
     save_cycle := save_cycle st |}.

Definition set_paths_to_remove (st : global_state) (ps : list string)
  : global_state :=
  {| master_history := master_history st;
     window_histories := window_histories st;
     active := active st;
     paths_to_remove := ps;
     save_cycle := save_cycle st |}.

Definition set_save_cycle (st : global_state) (i : Z) : global_state :=
  {| master_history := master_history st;
     window_histories := window_histories st;
     active := active st;
     paths_to_remove := paths_to_remove st;
     save_cycle := i |}.

(** [next(global_state['save_cycle'])] *)
Definition next_save_cycle (st : global_state) : bool * global_state :=
  let i := (save_cycle st + 1) mod SAVE_EVERY in
  (i =? 0, set_save_cycle st i).

(** [global_state['window_histories'][id]] on a [defaultdict(dict)] *)
Fixpoint window_get (ws : list (Z * history)) (id : Z) : history :=
  match ws with
  | [] => []
  | (id', h) :: ws' => if id =? id' then h else window_get ws' id
  end.

Fixpoint window_set (ws : list (Z * history)) (id : Z) (h : history)
  : list (Z * history) :=
  match ws with
  | [] => [(id, h)]
  | (id', h') :: ws' =>
      if id =? id' then (id', h) :: ws' else (id', h') :: window_set ws' id h
  end.

Definition remove_path (st : global_state) (path_to_remove : string)
  : global_state :=
  set_master
    (set_windows st
       (map (fun w => (fst w, dict_pop (snd w) path_to_remove))
            (window_histories st)))
    (dict_pop (master_history st) path_to_remove).

(** The set [paths_to_remove] itself is left as it is. *)
Definition remove_paths_to_remove (st : global_state) : global_state :=
  fold_left remove_path (paths_to_remove st) st.

Definition historied_path_exists (path : string) (path_exists : bool)
  (st : global_state) : bool * global_state :=
  if path_exists then (true, st)
  else (false,
        if existsb (String.eqb path) (paths_to_remove st) then st
        else set_paths_to_remove st (paths_to_remove st ++ [path])).

(** ** Load and save *)

Definition load_master_history_from_file (w : world) : world * outcome :=
  match disk w with
  | NoFile | Unreadable => (w, Returned)
  | NotJson => (w, Raised JSONDecodeError)
  | Stored stored_master_history =>
      let merged :=
        merge_histories stored_master_history (master_history (state w)) in
      ({| state := set_master (state w)
                     (dict_update (master_history (state w)) merged);
          disk := disk w |},
       Returned)
  end.

(** [json.dump(..., sort_keys=True)] followed by a later [json.load]: the
    entries in the order of their keys. *)
Fixpoint insert_key (x : string * entry) (l : history) : history :=
  match l with
  | [] => [x]
  | y :: l' =>
      if String.leb (fst x) (fst y) then x :: l else y :: insert_key x l'
  end.

Definition json_dump (h : history) : store_file :=
  Stored (fold_right insert_key [] h).

(** [len(state_master_history) > 0.7 * len(stored_master_history)] *)
Definition enough_entries (state_len stored_len : Z) : bool :=
  PyFloat.int_gt state_len
    (PyFloat.mul PyFloat.seven_tenths (PyFloat.of_int stored_len)).

Definition len {A : Type} (l : list A) : Z := Z.of_nat (List.length l).

(** [max_entries] is the setting [max_master_entries]. *)
Definition save_master_history_to_file (max_entries now : Z) (w : world)
  : world * outcome :=
  let st := remove_paths_to_remove (state w) in
  match disk w with
  | Unreadable => ({| state := st; disk := Unreadable |}, Raised IOError)
  | opened =>
      (* mode 'a+' creates a missing file, empty *)
      let on_disk := match opened with NoFile => NotJson | d => d end in
      let stored_master_history :=
        match opened with Stored h => h | _ => [] end in
      match limit_entries (master_history st) max_entries now with
      | Raise e => ({| state := st; disk := on_disk |}, Raised e)
      | Ok state_master_history =>
          if enough_entries (len state_master_history)
                            (len stored_master_history)
          then ({| state := st; disk := json_dump state_master_history |},
                Returned)
          else ({| state := st; disk := on_disk |}, Returned)
      end
  end.

(** ** Recording a visit *)

(** The entry of [path] after [entry['last_seen'] = now] and
    [entry['inserts'] += 1]; [clock] is what [get_time_seconds()] returns if
    the [defaultdict] has to create the entry. *)
Definition seen_entry (clock : Z) (master : history) (path : string) (now : Z)
  : entry :=
  let entry0 :=
    match dict_get master path with
    | Some e => e
    | None => new_history_entry clock
    end in
  {| added := added entry0; last_seen := now; inserts := inserts entry0 + 1 |}.

(** [record_seen_path_in_window] up to the save cycle: the entry is added or
    updated in the master history and put into the window history. *)
Definition seen_state (clock : Z) (window : Z) (path : string) (now : Z)
  (st : global_state) : global_state :=
  let window_history := window_get (window_histories st) window in
  let entry1 := seen_entry clock (master_history st) path now in
  let st := set_master st (dict_set (master_history st) path entry1) in
  set_windows st
    (window_set (window_histories st) window
       (dict_set window_history path entry1)).

Definition record_seen_path_in_window (max_entries clock : Z)
  (window : Z) (path : string) (now : Z) (w : world) : world * outcome :=
  let (due, st) := next_save_cycle (seen_state clock window path now (state w)) in
  if due
  then save_master_history_to_file max_entries now {| state := st; disk := disk w |}
  else ({| state := st; disk := disk w |}, Returned).

(** [record_view_in_window]: [path] and [window] are [None] for a view
    without a file or without a window. *)
Definition record_view_in_window (max_entries clock : Z)
  (window : option Z) (path : option string) (path_exists : bool) (now : Z)
  (w : world) : world * outcome :=
  match path, window with
  | Some p, Some win =>
      if negb (active (state w)) && path_exists
      then record_seen_path_in_window max_entries clock win p now w
      else (w, Returned)
  | _, _ => (w, Returned)
  end.


(** ** Predicates and inputs used in the statements *)

Section Ranked.
Context {A : Type}.

(** [x] may stand before [y] in a descending arrangement. *)
Definition not_below (x y : PyFloat.float * A) : Prop :=
  PyFloat.ltb (fst x) (fst y) = false.

Inductive descending : list (PyFloat.float * A) -> Prop :=
| descending_nil : descending []
| descending_one x : descending [x]
| descending_cons x y l :
    not_below x y -> descending (y :: l) -> descending (x :: y :: l).

(** Every item stands next to its own key. *)
Definition keyed (key : A -> result PyFloat.float) (l : list (PyFloat.float * A)) : Prop :=
Forall (fun p => key (snd p) = Ok (fst p)) l.

End Ranked.

(** The scenario of the specification: the stored and the in-memory /a. *)
Definition stored_a : history :=
  [("/a"%string, {| added := 1000; last_seen := 1000; inserts := 1 |})].
Definition in_memory_a : history :=
  [("/a"%string, {| added := 1000; last_seen := 2000; inserts := 3 |})].

Definition two_entries : history :=
  [("/a"%string, {| added := 1000; last_seen := 1000; inserts := 3 |});
   ("/b"%string, {| added := 1000; last_seen := 1000; inserts := 1 |})].

(** ** The quick panel *)

(** The argument of [run] after [OpenStatusFilter(...)]; a value the enum
    rejects is logged and kept as it came, and then equals no member. *)
Inductive OpenStatusFilter : Type :=
| OPENED
| CLOSED
| BOTH
| Unrecognised.

Definition is_closed_filter (f : OpenStatusFilter) : bool :=
  match f with CLOSED => true | _ => false end.

Definition is_opened_filter (f : OpenStatusFilter) : bool :=
  match f with OPENED => true | _ => false end.

(** One dict of [entry_data_list]; [score_frac] is absent until [run]
    sets it. *)
Record panel_entry : Type := mk_panel_entry {
  path : string;
  score : PyFloat.float;
  is_open : bool;
  is_within_folders : bool;
  attrs : entry;
  score_frac : option PyFloat.float
}.

(** [find_open_file path] tells whether the window has [path] open. *)
Fixpoint get_data_list_for_panel (h : history) (find_open_file : string -> bool)
  (window_folders : list string) (open_status_filter : OpenStatusFilter)
  (now : Z) : result (list panel_entry) :=
  match h with
  | [] => Ok []
  | (p, a) :: h' =>
      let opened := find_open_file p in
      if (opened && is_closed_filter open_status_filter)
         || (negb opened && is_opened_filter open_status_filter)
      then get_data_list_for_panel h' find_open_file window_folders
             open_status_filter now
      else
        s <- entry_frecency a now ;;
        rest <- get_data_list_for_panel h' find_open_file window_folders
                  open_status_filter now ;;
        Ok ({| path := p;
               score := s;
               is_open := opened;
               is_within_folders :=
                 existsb (fun folder => String.prefix folder p) window_folders;
               attrs := a;
               score_frac := None |} :: rest)
  end.

(** [sum(attrs['score'] for attrs in entry_data_list)]: from the int 0,
    left to right. *)
Definition total_score (entry_data_list : list panel_entry) : PyFloat.float :=
  fold_left PyFloat.add (map score entry_data_list) (PyFloat.of_int 0).

Definition set_score_frac (a : panel_entry) (f : PyFloat.float) : panel_entry :=
  {| path := path a;
     score := score a;
     is_open := is_open a;
     is_within_folders := is_within_folders a;
     attrs := attrs a;
     score_frac := Some f |}.

(** The block 'Get panel data' of [OpenFrecentFileCommand.run], from the
    history [run] has chosen; the display list has one row for each entry
    returned here. *)
Definition panel_data (h : history) (find_open_file : string -> bool)
  (window_folders : list string) (open_status_filter : OpenStatusFilter)
  (now : Z) : result (list panel_entry) :=
  data <- get_data_list_for_panel h find_open_file window_folders
            open_status_filter now ;;
  let entry_data_list :=
    map snd (sort_desc (map (fun a => (score a, a)) data)) in
  let total := total_score entry_data_list in
  mapM (fun a => f <- PyFloat.truediv (score a) total ;;
                 Ok (set_score_frac a f))
       entry_data_list.

(** [preview_selection], without the view it opens. *)
Definition preview_selection (show_file_preview : bool)
  (entry_data_list : list string) (selected_index : Z) (path_exists : bool)
  (st : global_state) : global_state :=
  if (0 <=? selected_index) && show_file_preview
  then match nth_error entry_data_list (Z.to_nat selected_index) with
       | Some p => snd (historied_path_exists p path_exists st)
       | None => st
       end
  else st.

(** [open_file], without the view it opens or focuses. *)
Definition open_file (entry_data_list : list string) (selected_index : Z)
  (path_exists : bool) (st : global_state) : global_state :=
  let st := set_active st false in
  let st :=
    if selected_index <? 0 then st
    else match nth_error entry_data_list (Z.to_nat selected_index) with
         | Some p => snd (historied_path_exists p path_exists st)
         | None => st
         end in
  remove_paths_to_remove st.

(** ** A session *)

(** [n] visits in a row to one path of one window, all at the time [now]. *)
Fixpoint visits (n : nat) (max_entries : Z) (window : Z) (p : string)
  (now : Z) (w : world) : world :=
  match n with
  | O => w
  | S n' =>
      visits n' max_entries window p now
        (fst (record_view_in_window max_entries now (Some window) (Some p)
                true now w))
  end.

Definition session_start : world :=
  {| state := initial_state; disk := NoFile |}.

(** The file /x is visited 49 times and deleted; the panel is opened and /x
    is chosen, found missing and dropped from the histories. *)
Definition session_dropped : world :=
  let w := visits 49 100 1 "/x" 1000 session_start in
  let st := set_active (state w) true in
  let st := open_file ["/x"%string] 0 false st in
  {| state := st; disk := disk w |}.

(** The file /x is there again and is visited once. *)
Definition session_revisited : world :=
  visits 1 100 1 "/x" 2000 session_dropped.

(** A history with one entry that has no visit yet. *)
Definition unvisited_a : history :=
  [("/a"%string, {| added := 1000; last_seen := 1000; inserts := 0 |})].

(** Memory holds /a, the file holds /b. *)
Definition memory_a_disk_b : world :=
  {| state := set_master initial_state in_memory_a;
     disk := Stored [("/b"%string,
                      {| added := 500; last_seen := 600; inserts := 2 |})] |}.

(** ** Rounding to binary64, in rational terms *)

(** [2^e] for any integer [e]. *)
Definition pow2 (e : Z) : Q := Qpower 2 e.

(** The significand [m] at exponent [e] with the location [l] stands for the
    rational [V]: [V] is [m * 2^e] exactly, or lies below, at or above the
    middle of [m * 2^e] and [(m + 1) * 2^e]. *)
Definition located (m e : Z) (l : location) (V : Q) : Prop :=
  match l with
  | loc_Exact => V == inject_Z m * pow2 e
  | loc_Inexact Lt =>
      inject_Z m * pow2 e < V /\ V < (inject_Z m + (1#2)) * pow2 e
  | loc_Inexact Eq => V == (inject_Z m + (1#2)) * pow2 e
  | loc_Inexact Gt =>
      (inject_Z m + (1#2)) * pow2 e < V /\ V < (inject_Z m + 1) * pow2 e
  end%Q.

(** The unit roundoff [2^-53] and the interval it leaves around a value. *)
Definition u53 : Q := 1 # 9007199254740992.

Definition rel_close (V x : Q) : Prop :=
  (V * (1 - u53) <= x /\ x <= V * (1 + u53))%Q.

(** [n] entries under the paths A, B, C, ... *)
Definition entries_upto (n : nat) : history :=
  map (fun i => (String (Ascii.ascii_of_nat (65 + i)) EmptyString,
                 {| added := 1000; last_seen := 1000; inserts := 1 |}))
      (seq 0 n).

(** Seven entries in memory over the first ten on disk. *)
Definition seven_over_ten : world :=
  {| state := set_master initial_state (entries_upto 7);
     disk := Stored (entries_upto 10) |}.

(** * More of the plugin *)

(** A key that a dict does not hold. *)
Definition absent {V : Type} (d : dict V) (k : string) : bool :=
  match dict_get d k with
  | None => true
  | Some _ => false
  end.

(** What a load makes of one path: the merge of the stored and the
    in-memory entry. *)
Definition loaded_entry (stored_entry memory_entry : option entry)
  : option entry :=
  match stored_entry, memory_entry with
  | Some a, Some b => Some (merge_entry a b)
  | Some a, None => Some a
  | None, Some b => Some b
  | None, None => None
  end.

(** /a is in memory and on disk, /b is on disk only. *)
Definition memory_a_disk_ab : world :=
  {| state := set_master initial_state in_memory_a;
     disk := Stored (stored_a ++ [("/b"%string,
                      {| added := 500; last_seen := 600; inserts := 2 |})]) |}.

(** A path is pending removal. *)
Definition pending (st : global_state) (p : string) : bool :=
  existsb (String.eqb p) (paths_to_remove st).

(** Every history of the state has each key once. *)
Definition state_wf (st : global_state) : Prop :=
  dict_wf (master_history st)
  /\ Forall (fun w => dict_wf (snd w)) (window_histories st).

(** /a and /b in memory and in window 1, /b pending removal. *)
Definition two_entries_b_pending : global_state :=
  {| master_history := two_entries;
     window_histories := [(1, two_entries)];
     active := false;
     paths_to_remove := ["/b"%string];
     save_cycle := 7 |}.

(** The entries that a save reads from the file: [{}] when the file is
    missing, empty or not JSON. *)
Definition stored_entries (d : store_file) : history :=
  match d with
  | Stored h => h
  | _ => []
  end.

(** One call of [record_seen_path_in_window]. *)
Record recording : Type := mk_recording {
  r_window : Z;
  r_path : string;
  r_now : Z;
  r_clock : Z   (** what [get_time_seconds()] gives to a new entry *)
}.

Definition record_one (max_entries : Z) (w : world) (r : recording) : world :=
  fst (record_seen_path_in_window max_entries (r_clock r) (r_window r)
         (r_path r) (r_now r) w).

(** Recordings one after the other, each from its own event. *)
Definition recordings (max_entries : Z) (rs : list recording) (w : world)
  : world :=
  fold_left (record_one max_entries) rs w.

(** Memory with /a and /b, a store with /a. *)
Definition memory_ab_disk_a : world :=
  {| state := set_master initial_state two_entries; disk := Stored stored_a |}.

(** Nothing in memory, nothing at the history path. *)
Definition nothing_anywhere : world :=
  {| state := initial_state; disk := NoFile |}.

(** ** Window histories from the master history *)

(** The inner loop of [populate_window_history_from_master]: the master
    entries under [folder] are put into the window history. *)
Definition populate_from_folder (master_history : history) (folder : string)
  (window_history : history) : history :=
  fold_left
    (fun wh item =>
       if String.prefix folder (fst item)
       then dict_set wh (fst item) (snd item)
       else wh)
    master_history window_history.

(** [window_folders] is what [window.folders()] returns. *)
Definition populate_window_history_from_master (window : Z)
  (window_folders : list string) (st : global_state) : global_state :=
  let window_history := window_get (window_histories st) window in
  let window_history :=
    fold_left (fun wh folder => populate_from_folder (master_history st) folder wh)
      window_folders window_history in
  set_windows st (window_set (window_histories st) window window_history).

(** [any(path.startswith(folder) for folder in window_folders)] *)
Definition within_folders (window_folders : list string) (p : string) : bool :=
  existsb (fun folder => String.prefix folder p) window_folders.

(** A master history with a path under /proj and one elsewhere. *)
Definition master_proj_etc : global_state :=
  set_master initial_state
    [("/proj/a.py"%string, {| added := 10; last_seen := 20; inserts := 2 |});
     ("/etc/hosts"%string, {| added := 11; last_seen := 21; inserts := 1 |})].



(** /a and /b in memory and in window 1, the panel open. *)
Definition two_entries_panel_open : global_state :=
  {| master_history := two_entries;
     window_histories := [(1, two_entries)];
     active := true;
     paths_to_remove := [];
     save_cycle := 7 |}.

(** What a recording at [now] makes of the entry found for the path. *)
Definition visited (found : option entry) (clock now : Z) : entry :=
  match found with
  | Some e => {| added := added e; last_seen := now; inserts := inserts e + 1 |}
  | None => {| added := clock; last_seen := now; inserts := 1 |}
  end.

(** The exact score [count / age * weight]. *)
Definition exact_score (age count : Z) : Q :=
  (inject_Z count / inject_Z age * inject_Z (recency_score age))%Q.

(** * Properties *)

(** ** Binary64 rounding *)

Lemma pow2_pos e : (0 < pow2 e)%Q.
Proof. apply Qpower_0_lt. reflexivity. Qed.

Lemma pow2_add a b : (pow2 (a + b) == pow2 a * pow2 b)%Q.
Proof. apply Qpower_plus. discriminate. Qed.

Lemma pow2_succ e : (pow2 (e + 1) == 2 * pow2 e)%Q.
Proof. rewrite pow2_add. unfold pow2 at 2. simpl. ring. Qed.

Lemma inject_xO p : (inject_Z (Zpos p~0) == 2 * inject_Z (Zpos p))%Q.
Proof. unfold Qeq. simpl. lia. Qed.

Lemma inject_xI p : (inject_Z (Zpos p~1) == 2 * inject_Z (Zpos p) + 1)%Q.
Proof. unfold Qeq. simpl. lia. Qed.

Lemma shr_1_located mrs e V :
  0 <= shr_m mrs ->
  located (shr_m mrs) e (loc_of_shr_record mrs) V ->
  located (shr_m (shr_1 mrs)) (e + 1) (loc_of_shr_record (shr_1 mrs)) V
  /\ 0 <= shr_m (shr_1 mrs).
Proof.
  destruct mrs as [m r s]. simpl. intros Hm H.
  pose proof (pow2_pos e) as HP. pose proof (pow2_succ e) as HS.
  destruct m as [|p|p]; [| |lia].
  - split; [|simpl; lia].
    destruct r, s; simpl in *; rewrite ?HS; change (inject_Z 0) with 0%Q in *; lra.
  - destruct p as [p|p|].
    + split; [|simpl; lia].
      pose proof (inject_xI p) as Hp.
      destruct r, s; simpl in *; rewrite ?HS; rewrite ?Hp in H; lra.
    + split; [|simpl; lia].
      pose proof (inject_xO p) as Hp.
      destruct r, s; simpl in *; rewrite ?HS; rewrite ?Hp in H; lra.
    + split; [|simpl; lia].
      destruct r, s; simpl in *; rewrite ?HS;
        change (inject_Z 0) with 0%Q in *; change (inject_Z 1) with 1%Q in *; lra.
Qed.

Lemma loc_of_record m l : loc_of_shr_record (shr_record_of_loc m l) = l.
Proof. destruct l as [|[]]; reflexivity. Qed.

Lemma shr_m_record m l : shr_m (shr_record_of_loc m l) = m.
Proof. destruct l as [|[]]; reflexivity. Qed.

Lemma iter_shr_located p : forall mrs e V,
  0 <= shr_m mrs ->
  located (shr_m mrs) e (loc_of_shr_record mrs) V ->
  located (shr_m (iter_pos shr_1 p mrs)) (e + Zpos p)
    (loc_of_shr_record (iter_pos shr_1 p mrs)) V
  /\ 0 <= shr_m (iter_pos shr_1 p mrs).
Proof.
  induction p as [p IH|p IH|]; intros mrs e V Hm H; simpl.
  - destruct (shr_1_located mrs e V Hm H) as [H1 Hm1].
    destruct (IH _ _ _ Hm1 H1) as [H2 Hm2].
    destruct (IH _ _ _ Hm2 H2) as [H3 Hm3].
    split; [|exact Hm3].
    replace (e + Zpos p~1) with (e + 1 + Zpos p + Zpos p) by lia. exact H3.
  - destruct (IH _ _ _ Hm H) as [H2 Hm2].
    destruct (IH _ _ _ Hm2 H2) as [H3 Hm3].
    split; [|exact Hm3].
    replace (e + Zpos p~0) with (e + Zpos p + Zpos p) by lia. exact H3.
  - apply shr_1_located; assumption.
Qed.

Lemma located_bounds m e l V :
  located m e l V ->
  (inject_Z m * pow2 e <= V /\ V < (inject_Z m + 1) * pow2 e)%Q.
Proof.
  pose proof (pow2_pos e). destruct l as [|[]]; simpl; lra.
Qed.

Lemma round_located m e l V :
  located m e l V ->
  ((inject_Z (round_nearest_even m l) - (1#2)) * pow2 e <= V
   /\ V <= (inject_Z (round_nearest_even m l) + (1#2)) * pow2 e)%Q
  /\ m <= round_nearest_even m l <= m + 1.
Proof.
  pose proof (pow2_pos e).
  destruct l as [|[]]; simpl; intros Hl.
  - split; [lra|lia].
  - destruct (Z.even m); [split; [lra|lia]|].
    rewrite inject_Z_plus. change (inject_Z 1) with 1%Q. split; [lra|lia].
  - split; [lra|lia].
  - rewrite inject_Z_plus. change (inject_Z 1) with 1%Q. split; [lra|lia].
Qed.

Lemma digits2_size p : digits2_pos p = Pos.size p.
Proof. induction p; simpl; congruence. Qed.

Lemma digits2_log2 p : Zpos (digits2_pos p) = Z.log2 (Zpos p) + 1.
Proof.
  rewrite digits2_size. destruct p; simpl; try reflexivity; lia.
Qed.

Lemma digits2_bounds p :
  2 ^ (Zpos (digits2_pos p) - 1) <= Zpos p < 2 ^ Zpos (digits2_pos p).
Proof.
  rewrite digits2_log2.
  replace (Z.log2 (Zpos p) + 1 - 1) with (Z.log2 (Zpos p)) by lia.
  replace (Z.log2 (Zpos p) + 1) with (Z.succ (Z.log2 (Zpos p))) by lia.
  apply Z.log2_spec. lia.
Qed.

Lemma digits2_unique p d :
  2 ^ (d - 1) <= Zpos p < 2 ^ d -> 0 < d -> Zpos (digits2_pos p) = d.
Proof.
  intros H Hd. rewrite digits2_log2.
  rewrite (Z.log2_unique (Zpos p) (d - 1)); [lia|lia|].
  replace (Z.succ (d - 1)) with d by lia. exact H.
Qed.

Lemma pow2_inject k : 0 <= k -> (inject_Z (2 ^ k) == pow2 k)%Q.
Proof. intros Hk. unfold pow2. now rewrite Zpower_Qpower. Qed.

Lemma inject_lt_cancel a b P :
  (0 < P)%Q -> (inject_Z a * P < inject_Z b * P)%Q -> a < b.
Proof.
  intros HP H. apply Qmult_lt_r in H; [|exact HP].
  now rewrite <- Zlt_Qlt in H.
Qed.



Lemma shr_fexp_located mx ex lx V :
  53 <= Zpos (digits2_pos mx) ->
  -1074 <= ex + Zpos (digits2_pos mx) - 53 ->
  located (Zpos mx) ex lx V ->
  exists mrs,
    shr_fexp 53 1024 (Zpos mx) ex lx = (mrs, ex + Zpos (digits2_pos mx) - 53)
    /\ located (shr_m mrs) (ex + Zpos (digits2_pos mx) - 53)
         (loc_of_shr_record mrs) V
    /\ 0 <= shr_m mrs.
Proof.
  intros Hd He Hl.
  unfold shr_fexp, fexp, emin, Zdigits2, shr.
  set (d := Zpos (digits2_pos mx)) in *.
  rewrite Z.max_l by lia.
  destruct (d + ex - 53 - ex) as [|p|p] eqn:En; [| |lia].
  - exists (shr_record_of_loc (Zpos mx) lx).
    replace (ex + d - 53) with ex by lia.
    rewrite loc_of_record, shr_m_record. repeat split; auto. lia.
  - exists (iter_pos shr_1 p (shr_record_of_loc (Zpos mx) lx)).
    replace (ex + d - 53) with (ex + Zpos p) by lia.
    split; [reflexivity|].
    apply iter_shr_located.
    + rewrite shr_m_record. lia.
    + now rewrite loc_of_record, shr_m_record.
Qed.

Lemma binary_round_aux_correct sx mx ex lx V :
  53 <= Zpos (digits2_pos mx) ->
  -1074 <= ex + Zpos (digits2_pos mx) - 53 < 971 ->
  located (Zpos mx) ex lx V ->
  exists m e,
    binary_round_aux 53 1024 sx (Zpos mx) ex lx = S754_finite sx m e
    /\ digits2_pos m = 53%positive
    /\ ex + Zpos (digits2_pos mx) - 53 <= e <= ex + Zpos (digits2_pos mx) - 52
    /\ rel_close V (inject_Z (Zpos m) * pow2 e).
Proof.
  intros Hd He Hl.
  destruct (shr_fexp_located mx ex lx V Hd (proj1 He) Hl) as [mrs [Hs [Hl' Hm']]].
  unfold binary_round_aux. rewrite Hs.
  set (d := Zpos (digits2_pos mx)) in *.
  set (E := ex + d - 53) in *.
  pose proof (pow2_pos E) as HP.
  pose proof (pow2_pos ex) as HPx.
  (* the value lies in one binade *)
  destruct (located_bounds _ _ _ _ Hl) as [HV1 HV2].
  pose proof (digits2_bounds mx) as Hmx. fold d in Hmx.
  assert (HE : (pow2 ex * inject_Z (2 ^ (d - 53)) == pow2 E)%Q).
  { rewrite pow2_inject by lia. rewrite <- pow2_add. unfold E.
    replace (ex + (d - 53)) with (ex + d - 53) by lia. reflexivity. }
  assert (Hlo : (4503599627370496 * pow2 E <= V)%Q).
  { assert (H1 : (inject_Z (2 ^ (d - 1)) <= inject_Z (Zpos mx))%Q)
      by (rewrite <- Zle_Qle; lia).
    assert (Hd2 : 2 ^ (d - 1) = 2 ^ 52 * 2 ^ (d - 53))
      by (rewrite <- Z.pow_add_r by lia; f_equal; lia).
    rewrite Hd2, inject_Z_mult in H1.
    change (inject_Z (2 ^ 52)) with 4503599627370496%Q in H1.
    rewrite <- HE.
    apply Qmult_le_compat_r with (z := pow2 ex) in H1; lra. }
  assert (Hhi : (V < 9007199254740992 * pow2 E)%Q).
  { assert (H1 : (inject_Z (Zpos mx) + 1 <= inject_Z (2 ^ d))%Q).
    { change 1%Q with (inject_Z 1). rewrite <- inject_Z_plus, <- Zle_Qle. lia. }
    assert (Hd2 : 2 ^ d = 2 ^ 53 * 2 ^ (d - 53))
      by (rewrite <- Z.pow_add_r by lia; f_equal; lia).
    rewrite Hd2, inject_Z_mult in H1.
    change (inject_Z (2 ^ 53)) with 9007199254740992%Q in H1.
    rewrite <- HE.
    apply Qmult_le_compat_r with (z := pow2 ex) in H1; lra. }
  (* the shifted significand has 53 digits *)
  destruct (located_bounds _ _ _ _ Hl') as [HW1 HW2].
  assert (Hm1 : shr_m mrs < 9007199254740992).
  { apply (inject_lt_cancel _ _ (pow2 E) HP).
    change (inject_Z 9007199254740992) with 9007199254740992%Q. lra. }
  assert (Hm2 : 4503599627370496 <= shr_m mrs).
  { assert (4503599627370496 < shr_m mrs + 1); [|lia].
    apply (inject_lt_cancel _ _ (pow2 E) HP).
    rewrite inject_Z_plus.
    change (inject_Z 4503599627370496) with 4503599627370496%Q.
    change (inject_Z 1) with 1%Q. lra. }
  destruct (round_located _ _ _ _ Hl') as [[HR1 HR2] HR3].
  set (r := round_nearest_even (shr_m mrs) (loc_of_shr_record mrs)) in *.
  destruct (Z.eq_dec r 9007199254740992) as [Hr|Hr].
  - (* rounded up to 2^53: one more shift *)
    rewrite Hr in *.
    exists 4503599627370496%positive, (E + 1).
    split.
    { unfold shr_fexp, fexp, emin, shr. 
      change (Zdigits2 9007199254740992) with 54.
      rewrite Z.max_l by lia.
      replace (54 + E - 53 - E) with 1 by lia.
      cbn.
      destruct (Z.leb_spec (E + 1) 971); [reflexivity|lia]. }
    split; [reflexivity|]. split; [unfold E; lia|].
    unfold rel_close. rewrite pow2_succ.
    change (inject_Z 9007199254740992) with 9007199254740992%Q in *.
    change (inject_Z 4503599627370496) with 4503599627370496%Q.
    unfold u53. lra.
  - assert (Hr2 : 4503599627370496 <= r < 9007199254740992) by lia.
    destruct r as [|m|m] eqn:Er; [lia| |lia].
    exists m, E.
    assert (Hdm : Zpos (digits2_pos m) = 53).
    { apply digits2_unique; [|lia].
      change (2 ^ (53 - 1)) with 4503599627370496.
      change (2 ^ 53) with 9007199254740992. lia. }
    split.
    { unfold shr_fexp, fexp, emin, shr, Zdigits2.
      rewrite Hdm. rewrite Z.max_l by lia.
      replace (53 + E - 53 - E) with 0 by lia.
      cbn.
      destruct (Z.leb_spec E 971); [reflexivity|lia]. }
    split; [congruence|]. split; [unfold E; lia|].
    unfold rel_close, u53. lra.
Qed.

Lemma shr_fexp_exact mx ex :
  digits2_pos mx = 53%positive -> -1074 <= ex ->
  shr_fexp 53 1024 (Zpos mx) ex loc_Exact
  = ({| shr_m := Zpos mx; shr_r := false; shr_s := false |}, ex).
Proof.
  intros Hd He.
  unfold shr_fexp, fexp, emin, shr, Zdigits2.
  rewrite Hd. rewrite Z.max_l by lia.
  replace (53 + ex - 53 - ex) with 0 by lia. reflexivity.
Qed.

(** A significand of 53 digits is a float as it stands. *)
Lemma binary_round_aux_exact sx mx ex :
  digits2_pos mx = 53%positive -> -1074 <= ex <= 971 ->
  binary_round_aux 53 1024 sx (Zpos mx) ex loc_Exact = S754_finite sx mx ex.
Proof.
  intros Hd He.
  unfold binary_round_aux.
  rewrite (shr_fexp_exact mx ex Hd) by lia.
  cbv [shr_m loc_of_shr_record round_nearest_even].
  rewrite (shr_fexp_exact mx ex Hd) by lia.
  cbv [shr_m].
  destruct (Z.leb_spec ex (1024 - 53)); [reflexivity|lia].
Qed.

Lemma digits2_iter_xO p k :
  Zpos (digits2_pos (Pos.iter xO p k)) = Zpos (digits2_pos p) + Zpos k.
Proof.
  induction k as [|k IH] using Pos.peano_ind.
  - simpl. lia.
  - rewrite Pos.iter_succ. simpl. lia.
Qed.

Lemma inject_iter_xO p k :
  (inject_Z (Zpos (Pos.iter xO p k)) * pow2 (- Zpos k) == inject_Z (Zpos p))%Q.
Proof.
  induction k as [|k IH] using Pos.peano_ind.
  - simpl Pos.iter. rewrite inject_xO.
    change (pow2 (Z.opp 1)) with (1 # 2)%Q; change (pow2 (Zneg 1)) with (1 # 2)%Q.
    lra.
  - rewrite Pos.iter_succ, inject_xO.
    replace (- Zpos (Pos.succ k)) with (- Zpos k + -1) by lia.
    rewrite pow2_add, <- IH.
    change (pow2 (Z.opp 1)) with (1 # 2)%Q; change (pow2 (Zneg 1)) with (1 # 2)%Q.
    lra.
Qed.

(** [float(n)] is exact below [2^53]. *)
Lemma of_int_exact n :
  0 < n < 2 ^ 53 ->
  exists m e,
    PyFloat.of_int n = S754_finite false m e
    /\ digits2_pos m = 53%positive
    /\ -52 <= e <= 0
    /\ (inject_Z (Zpos m) * pow2 e == inject_Z n)%Q.
Proof.
  intros Hn. destruct n as [|p|p]; [lia| |lia].
  unfold PyFloat.of_int, PyFloat.prec, PyFloat.emax, binary_normalize,
    binary_round, shl_align, fexp, emin.
  pose proof (digits2_bounds p) as Hb.
  set (d := Zpos (digits2_pos p)) in *.
  assert (Hd : 1 <= d <= 53).
  { split; [unfold d; lia|].
    destruct (Z_le_gt_dec d 53) as [|Hgt]; [assumption|].
    assert (2 ^ 53 <= 2 ^ (d - 1)) by (apply Z.pow_le_mono_r; lia). lia. }
  rewrite Z.max_l by lia.
  destruct (d + 0 - 53 - 0) as [|k|k] eqn:Ek; [| lia |].
  - assert (Hp : digits2_pos p = 53%positive)
      by (apply Pos2Z.inj; unfold d in *; lia).
    exists p, 0. rewrite (binary_round_aux_exact false p 0 Hp) by lia.
    split; [reflexivity|]. split; [exact Hp|]. split; [lia|].
    change (pow2 0) with 1%Q. lra.
  - assert (Hdk : digits2_pos (Pos.iter xO p k) = 53%positive)
      by (apply Pos2Z.inj; rewrite digits2_iter_xO; fold d; lia).
    exists (Pos.iter xO p k), (d + 0 - 53).
    rewrite (binary_round_aux_exact false _ _ Hdk) by lia.
    split; [reflexivity|]. split; [exact Hdk|]. split; [lia|].
    replace (d + 0 - 53) with (- Zpos k) by lia.
    apply inject_iter_xO.
Qed.

Lemma digits2_mul m1 m2 :
  digits2_pos m1 = 53%positive -> digits2_pos m2 = 53%positive ->
  105 <= Zpos (digits2_pos (m1 * m2)) <= 106.
Proof.
  intros H1 H2.
  pose proof (digits2_bounds m1) as B1. pose proof (digits2_bounds m2) as B2.
  pose proof (digits2_bounds (m1 * m2)) as B.
  rewrite H1 in B1. rewrite H2 in B2.
  change (2 ^ (53 - 1)) with 4503599627370496 in *.
  change (2 ^ 53) with 9007199254740992 in *.
  set (d := Zpos (digits2_pos (m1 * m2))) in *.
  rewrite Pos2Z.inj_mul in B.
  assert (Hlo : 2 ^ 104 <= Zpos m1 * Zpos m2).
  { change (2 ^ 104) with (4503599627370496 * 4503599627370496). nia. }
  assert (Hhi : Zpos m1 * Zpos m2 < 2 ^ 106).
  { change (2 ^ 106) with (9007199254740992 * 9007199254740992). nia. }
  split.
  - destruct (Z_le_gt_dec 105 d) as [|Hgt]; [assumption|].
    assert (2 ^ d <= 2 ^ 104) by (apply Z.pow_le_mono_r; lia). lia.
  - destruct (Z_le_gt_dec d 106) as [|Hgt]; [assumption|].
    assert (2 ^ 106 <= 2 ^ (d - 1)) by (apply Z.pow_le_mono_r; lia). lia.
Qed.

(** The product of two positive normal floats, when it is in the normal
    range, is within one unit roundoff of the exact product. *)
Lemma mul_correct m1 e1 m2 e2 :
  digits2_pos m1 = 53%positive -> digits2_pos m2 = 53%positive ->
  -1126 <= e1 + e2 <= 864 ->
  exists m e,
    PyFloat.mul (S754_finite false m1 e1) (S754_finite false m2 e2)
      = S754_finite false m e
    /\ digits2_pos m = 53%positive
    /\ e1 + e2 + 52 <= e <= e1 + e2 + 54
    /\ rel_close ((inject_Z (Zpos m1) * pow2 e1) * (inject_Z (Zpos m2) * pow2 e2))
         (inject_Z (Zpos m) * pow2 e).
Proof.
  intros H1 H2 He.
  pose proof (digits2_mul m1 m2 H1 H2) as Hd.
  unfold PyFloat.mul, SFmul, PyFloat.prec, PyFloat.emax. simpl xorb.
  destruct (binary_round_aux_correct false (m1 * m2) (e1 + e2) loc_Exact
              ((inject_Z (Zpos m1) * pow2 e1) * (inject_Z (Zpos m2) * pow2 e2)))
    as [m [e [Hr [Hm [Hee Hc]]]]].
  - lia.
  - lia.
  - simpl. rewrite Pos2Z.inj_mul, inject_Z_mult, pow2_add. ring.
  - exists m, e. split; [exact Hr|]. split; [exact Hm|]. split; [lia|exact Hc].
Qed.


Lemma digits2_range p a b :
  0 <= a -> 2 ^ a <= Zpos p < 2 ^ b -> a + 1 <= Zpos (digits2_pos p) <= b.
Proof.
  intros Ha H. pose proof (digits2_bounds p) as B.
  set (d := Zpos (digits2_pos p)) in *.
  assert (Hd : 1 <= d) by (unfold d; lia).
  split.
  - destruct (Z_le_gt_dec (a + 1) d) as [|Hgt]; [assumption|].
    assert (2 ^ d <= 2 ^ a) by (apply Z.pow_le_mono_r; lia). lia.
  - destruct (Z_le_gt_dec d b) as [|Hgt]; [assumption|].
    assert (2 ^ b <= 2 ^ (d - 1)) by (apply Z.pow_le_mono_r; lia). lia.
Qed.

Lemma new_location_located q e nb k V :
  0 < nb -> 0 <= k < nb ->
  (V == (inject_Z q + inject_Z k / inject_Z nb) * pow2 e)%Q ->
  located q e (new_location nb k) V.
Proof.
  intros Hnb Hk HV.
  pose proof (pow2_pos e) as HP.
  assert (HN : (0 < inject_Z nb)%Q) by (change 0%Q with (inject_Z 0); now rewrite <- Zlt_Qlt).
  set (x := (inject_Z k / inject_Z nb)%Q) in *.
  assert (Hlt : 2 * k < nb -> (x * pow2 e < (1#2) * pow2 e)%Q).
  { intros H. apply Qmult_lt_compat_r; [exact HP|].
    apply Qlt_shift_div_r; [exact HN|].
    rewrite Zlt_Qlt in H. rewrite inject_Z_mult in H.
    change (inject_Z 2) with 2%Q in H. lra. }
  assert (Hgt : nb < 2 * k -> ((1#2) * pow2 e < x * pow2 e)%Q).
  { intros H. apply Qmult_lt_compat_r; [exact HP|].
    apply Qlt_shift_div_l; [exact HN|].
    rewrite Zlt_Qlt in H. rewrite inject_Z_mult in H.
    change (inject_Z 2) with 2%Q in H. lra. }
  assert (Heq : 2 * k = nb -> (x * pow2 e == (1#2) * pow2 e)%Q).
  { intros H. assert (Hx : (x == 1#2)%Q); [|now rewrite Hx].
    unfold x. rewrite <- H, inject_Z_mult. change (inject_Z 2) with 2%Q.
    field. intros H0. rewrite <- H, inject_Z_mult in HN.
    change (inject_Z 2) with 2%Q in HN. lra. }
  assert (H0 : k = 0 -> (x * pow2 e == 0)%Q).
  { intros ->. unfold x. change (inject_Z 0) with 0%Q. field. lra. }
  assert (Hpos : 0 < k -> (0 < x * pow2 e)%Q).
  { intros H. apply Qmult_lt_0_compat; [|exact HP].
    apply Qlt_shift_div_l; [exact HN|].
    rewrite Zlt_Qlt in H. change (inject_Z 0) with 0%Q in H. lra. }
  assert (H1 : (x * pow2 e < pow2 e)%Q).
  { rewrite <- (Qmult_1_l (pow2 e)) at 2.
    apply Qmult_lt_compat_r; [exact HP|].
    apply Qlt_shift_div_r; [exact HN|].
    destruct Hk as [_ Hk]. rewrite Zlt_Qlt in Hk. lra. }
  clearbody x.
  unfold new_location, new_location_even, new_location_odd.
  assert (Hodd : Z.even nb = false -> 2 * k <> nb).
  { intros Ev <-. rewrite Z.even_mul in Ev. discriminate. }
  destruct (Z.even nb) eqn:Ev.
  - destruct (Z.eqb_spec k 0) as [Hk0|Hk0]; unfold located.
    + specialize (H0 Hk0). clear Hlt Hgt Heq Hpos Hodd. lra.
    + assert (Hkp : 0 < k) by lia. specialize (Hpos Hkp).
      destruct (Z.compare_spec (2 * k) nb) as [Hc|Hc|Hc]; unfold located.
      * specialize (Heq Hc). clear Hlt Hgt H0 Hodd. lra.
      * specialize (Hlt Hc). clear Heq Hgt H0 Hodd. lra.
      * specialize (Hgt Hc). clear Heq Hlt H0 Hodd. lra.
  - specialize (Hodd eq_refl).
    destruct (Z.eqb_spec k 0) as [Hk0|Hk0]; unfold located.
    + specialize (H0 Hk0). clear Hlt Hgt Heq Hpos. lra.
    + assert (Hkp : 0 < k) by lia. specialize (Hpos Hkp).
      destruct (Z.compare_spec (2 * k + 1) nb) as [Hc|Hc|Hc]; unfold located.
      * assert (Hc' : 2 * k < nb) by lia.
        specialize (Hlt Hc'). clear Heq Hgt H0. lra.
      * assert (Hc' : 2 * k < nb) by lia.
        specialize (Hlt Hc'). clear Heq Hgt H0. lra.
      * assert (Hc' : nb < 2 * k) by lia.
        specialize (Hgt Hc'). clear Heq Hlt H0. lra.
Qed.

(** The quotient and remainder that [SFdiv] hands to the rounding, for two
    ints: a significand of 53 or 54 digits that locates the exact
    quotient. *)
Lemma div_core_located pc pa :
  Zpos pc < 2 ^ 53 -> Zpos pa < 2 ^ 63 ->
  exists pq lz,
    SFdiv_core_binary 53 1024 (Zpos pc) 0 (Zpos pa) 0
    = (Zpos pq, Zpos (digits2_pos pc) - Zpos (digits2_pos pa) - 53, lz)
    /\ 53 <= Zpos (digits2_pos pq) <= 54
    /\ 1 <= Zpos (digits2_pos pc) <= 53
    /\ 1 <= Zpos (digits2_pos pa) <= 63
    /\ located (Zpos pq) (Zpos (digits2_pos pc) - Zpos (digits2_pos pa) - 53) lz
         (inject_Z (Zpos pc) / inject_Z (Zpos pa)).
Proof.
  intros Hc Ha.
  pose proof (digits2_bounds pc) as Bc. pose proof (digits2_bounds pa) as Ba.
  assert (Hd1 : 1 <= Zpos (digits2_pos pc) <= 53).
  { split; [lia|]. apply (digits2_range pc 0 53); lia. }
  assert (Hd2 : 1 <= Zpos (digits2_pos pa) <= 63).
  { split; [lia|]. apply (digits2_range pa 0 63); lia. }
  cbv beta iota zeta delta [SFdiv_core_binary fexp emin Zdigits2].
  set (d1 := Zpos (digits2_pos pc)) in *.
  set (d2 := Zpos (digits2_pos pa)) in *.
  rewrite Z.max_l by lia. rewrite Z.min_l by lia.
  destruct (0 - 0 - (d1 + 0 - (d2 + 0) - 53)) as [|ps|ps] eqn:Es; [lia| |lia].
  rewrite Z.shiftl_mul_pow2 by lia.
  set (s := Zpos ps) in *.
  destruct (Z.div_eucl (Zpos pc * 2 ^ s) (Zpos pa)) as [q r] eqn:Eqr.
  pose proof (Z_div_mod (Zpos pc * 2 ^ s) (Zpos pa) ltac:(lia)) as Hdm.
  rewrite Eqr in Hdm. destruct Hdm as [Hdm Hr].
  set (T := 2 ^ (d2 - 1)) in *.
  assert (HT : 2 ^ d2 = 2 * T).
  { unfold T. replace d2 with (1 + (d2 - 1)) at 1 by lia.
    rewrite Z.pow_add_r by lia. reflexivity. }
  assert (HTpos : 0 < T) by (unfold T; apply Z.pow_pos_nonneg; lia).
  assert (Hlo : 2 ^ 53 * T <= Zpos pc * 2 ^ s).
  { replace (2 ^ 53 * T) with (2 ^ (d1 - 1) * 2 ^ s).
    - apply Z.mul_le_mono_nonneg_r; [apply Z.pow_nonneg; lia | lia].
    - unfold T. rewrite <- !Z.pow_add_r by lia. f_equal. lia. }
  assert (Hhi : Zpos pc * 2 ^ s < 2 ^ 54 * T).
  { replace (2 ^ 54 * T) with (2 ^ d1 * 2 ^ s).
    - apply Z.mul_lt_mono_pos_r; [apply Z.pow_pos_nonneg; lia | lia].
    - unfold T. rewrite <- !Z.pow_add_r by lia. f_equal. lia. }
  change (2 ^ 53) with 9007199254740992 in Hlo.
  change (2 ^ 54) with 18014398509481984 in Hhi.
  assert (Hq1 : 4503599627370496 <= q) by nia.
  assert (Hq2 : q < 18014398509481984) by nia.
  destruct q as [|pq|pq]; [lia| |lia].
  exists pq, (new_location (Zpos pa) r).
  split; [f_equal; f_equal; lia|].
  split.
  { apply (digits2_range pq 52 54); [lia|].
    change (2 ^ 52) with 4503599627370496.
    change (2 ^ 54) with 18014398509481984. lia. }
  split; [exact Hd1|]. split; [exact Hd2|].
  apply new_location_located; [lia|lia|].
  assert (HQ : (inject_Z (Zpos pc) * pow2 s
                == inject_Z (Zpos pa) * inject_Z (Zpos pq) + inject_Z r)%Q).
  { rewrite <- pow2_inject by (unfold s; lia).
    rewrite <- !inject_Z_mult, <- inject_Z_plus. now rewrite Hdm. }
  assert (Hm : (pow2 (d1 - d2 - 53) == / pow2 s)%Q).
  { replace (d1 - d2 - 53) with (- s) by lia. unfold pow2. apply Qpower_opp. }
  pose proof (pow2_pos s) as HPs.
  assert (HA : (0 < inject_Z (Zpos pa))%Q) by reflexivity.
  rewrite Hm.
  assert (HC : (inject_Z (Zpos pc)
                == (inject_Z (Zpos pa) * inject_Z (Zpos pq) + inject_Z r)
                   / pow2 s)%Q).
  { rewrite <- HQ. field. lra. }
  rewrite HC. field. split; lra.
Qed.

(** [c / a] on two positive ints of ordinary size returns a normal float
    within one unit roundoff of the exact quotient. *)
Lemma int_truediv_correct c a :
  0 < c < 2 ^ 53 -> 0 < a < 2 ^ 63 ->
  exists m e,
    PyFloat.int_truediv c a = Ok (S754_finite false m e)
    /\ digits2_pos m = 53%positive
    /\ -116 <= e <= 1
    /\ rel_close (inject_Z c / inject_Z a) (inject_Z (Zpos m) * pow2 e).
Proof.
  intros Hc Ha.
  destruct c as [|pc|pc]; [lia| |lia]. destruct a as [|pa|pa]; [lia| |lia].
  destruct (div_core_located pc pa (proj2 Hc) (proj2 Ha))
    as [pq [lz [Hcore [Hdq [Hd1 [Hd2 Hloc]]]]]].
  unfold PyFloat.int_truediv, PyFloat.raw, SFdiv, PyFloat.prec, PyFloat.emax.
  change (Zpos pa =? 0) with false. cbv iota.
  rewrite Hcore.
  assert (Hrange : -1074 <= Zpos (digits2_pos pc) - Zpos (digits2_pos pa) - 53
                            + Zpos (digits2_pos pq) - 53 < 971) by lia.
  destruct (binary_round_aux_correct (xorb false false) pq _ lz _
              (proj1 Hdq) Hrange Hloc)
    as [m [e [Hr [Hm [He Hv]]]]].
  rewrite Hr. exists m, e.
  split; [reflexivity|]. split; [exact Hm|]. split; [lia|exact Hv].
Qed.

Lemma pow2_step e1 e2 : e2 < e1 -> (2 * pow2 e2 <= pow2 e1)%Q.
Proof.
  intros H. replace e1 with (e2 + 1 + (e1 - e2 - 1)) by lia.
  rewrite pow2_add, pow2_succ.
  pose proof (pow2_pos e2) as HP.
  assert (H1 : (1 <= pow2 (e1 - e2 - 1))%Q).
  { rewrite <- pow2_inject by lia. change 1%Q with (inject_Z 1).
    rewrite <- Zle_Qle.
    assert (0 < 2 ^ (e1 - e2 - 1)) by (apply Z.pow_pos_nonneg; lia). lia. }
  assert (H2 : (2 * pow2 e2 * 1 <= 2 * pow2 e2 * pow2 (e1 - e2 - 1))%Q).
  { apply Qmult_le_l; [lra|exact H1]. }
  lra.
Qed.

Lemma digits53_bounds m :
  digits2_pos m = 53%positive ->
  (4503599627370496 <= inject_Z (Zpos m) < 9007199254740992)%Q.
Proof.
  intros H. pose proof (digits2_bounds m) as B. rewrite H in B.
  change (2 ^ (53 - 1)) with 4503599627370496 in B.
  change (2 ^ 53) with 9007199254740992 in B.
  change 4503599627370496%Q with (inject_Z 4503599627370496).
  change 9007199254740992%Q with (inject_Z 9007199254740992).
  rewrite <- Zle_Qle, <- Zlt_Qlt. exact B.
Qed.

(** On positive normal floats [<] is the order of the values. *)
Lemma ltb_of_value m1 e1 m2 e2 :
  digits2_pos m1 = 53%positive -> digits2_pos m2 = 53%positive ->
  (inject_Z (Zpos m1) * pow2 e1 < inject_Z (Zpos m2) * pow2 e2)%Q ->
  PyFloat.ltb (S754_finite false m1 e1) (S754_finite false m2 e2) = true.
Proof.
  intros H1 H2 Hv.
  pose proof (digits53_bounds m1 H1) as B1.
  pose proof (digits53_bounds m2 H2) as B2.
  pose proof (pow2_pos e1) as P1. pose proof (pow2_pos e2) as P2.
  unfold PyFloat.ltb, SFltb, SFcompare.
  destruct (Z.compare_spec e1 e2) as [He|He|He].
  - subst e2. change (Pos.compare_cont Eq m1 m2) with (Pos.compare m1 m2).
    apply Qmult_lt_r in Hv; [|exact P1]. rewrite <- Zlt_Qlt in Hv.
    apply Pos.compare_lt_iff in Hv. now rewrite Hv.
  - reflexivity.
  - exfalso. pose proof (pow2_step e1 e2 He) as Hs.
    assert (Ha : (4503599627370496 * pow2 e1 <= inject_Z (Zpos m1) * pow2 e1)%Q).
    { apply Qmult_le_compat_r; lra. }
    assert (Hb : (inject_Z (Zpos m2) * pow2 e2 < 9007199254740992 * pow2 e2)%Q).
    { apply Qmult_lt_compat_r; lra. }
    lra.
Qed.

(** Known doubles: 1/3, 1/20 and the literal 0.7; the score of the
    specification's scenario, 5 visits at age 100, is the double next above
    0.3. *)
Example one_third :
  PyFloat.int_truediv 1 3 = Ok (S754_finite false 6004799503160661 (-54)).
Proof. vm_compute. reflexivity. Qed.

Example one_twentieth :
  PyFloat.int_truediv 5 100 = Ok (S754_finite false 7205759403792794 (-57)).
Proof. vm_compute. reflexivity. Qed.

Example seven_tenths_literal :
  PyFloat.int_truediv 7 10 = Ok PyFloat.seven_tenths.
Proof. vm_compute. reflexivity. Qed.

Example scenario_score :
  entry_frecency {| added := 99000; last_seen := 99990; inserts := 5 |} 100000
  = Ok (S754_finite false 5404319552844596 (-54)).
Proof. vm_compute. reflexivity. Qed.

(** Rounding a significand that is not negative never gives NaN. *)
Lemma shr_1_nonneg mrs : 0 <= shr_m mrs -> 0 <= shr_m (shr_1 mrs).
Proof.
  destruct mrs as [m r s]. simpl. intros Hm.
  destruct m as [|p|p]; [simpl; lia| |lia].
  destruct p; simpl; lia.
Qed.

Lemma iter_shr_nonneg p : forall mrs,
  0 <= shr_m mrs -> 0 <= shr_m (iter_pos shr_1 p mrs).
Proof.
  induction p as [p IH|p IH|]; intros mrs Hm; simpl.
  - apply IH, IH, shr_1_nonneg, Hm.
  - apply IH, IH, Hm.
  - apply shr_1_nonneg, Hm.
Qed.

Lemma shr_fexp_nonneg m e l :
  0 <= m -> 0 <= shr_m (fst (shr_fexp 53 1024 m e l)).
Proof.
  intros Hm. unfold shr_fexp, shr.
  destruct (fexp 53 1024 (Zdigits2 m + e) - e); simpl;
    try (rewrite shr_m_record; exact Hm).
  apply iter_shr_nonneg. now rewrite shr_m_record.
Qed.

Lemma binary_round_aux_not_nan sx mx ex lx :
  0 <= mx -> binary_round_aux 53 1024 sx mx ex lx <> S754_nan.
Proof.
  intros Hm. unfold binary_round_aux.
  pose proof (shr_fexp_nonneg mx ex lx Hm) as H1.
  destruct (shr_fexp 53 1024 mx ex lx) as [mrs' e'].
  simpl fst in H1.
  assert (Hr : 0 <= round_nearest_even (shr_m mrs') (loc_of_shr_record mrs')).
  { unfold round_nearest_even.
    destruct (loc_of_shr_record mrs') as [|[]]; try lia.
    destruct (Z.even (shr_m mrs')); lia. }
  pose proof (shr_fexp_nonneg _ e' loc_Exact Hr) as H2.
  destruct (shr_fexp 53 1024 _ e' loc_Exact) as [mrs'' e''].
  simpl fst in H2.
  destruct (shr_m mrs'') as [|p|p]; [discriminate| |lia].
  destruct (e'' <=? 1024 - 53); discriminate.
Qed.

Lemma int_truediv_not_nan a b q :
  PyFloat.int_truediv a b = Ok q -> q <> S754_nan.
Proof.
  unfold PyFloat.int_truediv, PyFloat.prec, PyFloat.emax.
  destruct (b =? 0) eqn:Eb; [discriminate|].
  apply Z.eqb_neq in Eb.
  assert (Hd : SFdiv 53 1024 (PyFloat.raw a) (PyFloat.raw b) <> S754_nan).
  { destruct a as [|pa|pa], b as [|pb|pb]; try lia; simpl; try discriminate;
      (match goal with
       | |- context [SFdiv_core_binary 53 1024 (Zpos ?x) 0 (Zpos ?y) 0] =>
           pose proof (fun m' (H : 0 <= m') =>
                         Z_div_mod m' (Zpos y) ltac:(lia)) as Hdm;
           unfold SFdiv_core_binary;
           match goal with
           | |- context [Z.div_eucl ?m' (Zpos y)] =>
               assert (Hm' : 0 <= m')
           end
       end;
       [ match goal with
         | |- 0 <= match ?s with _ => _ end =>
             destruct s eqn:Es; try lia; rewrite Z.shiftl_mul_pow2 by lia;
             apply Z.mul_nonneg_nonneg; [lia | apply Z.pow_nonneg; lia]
         end
       | match goal with
         | |- context [Z.div_eucl ?m' (Zpos ?y)] =>
             specialize (Hdm m' Hm');
             destruct (Z.div_eucl m' (Zpos y)) as [q0 r0];
             apply binary_round_aux_not_nan; nia
         end ]). }
  destruct (SFdiv 53 1024 (PyFloat.raw a) (PyFloat.raw b));
    intros H; inversion H; subst; try discriminate; congruence.
Qed.

(** ** Dicts *)

Section DictFacts.
Context {V : Type}.
Implicit Types (d : dict V) (k : string) (v : V).

Lemma dict_get_set_same d k v : dict_get (dict_set d k v) k = Some v.
Proof.
  induction d as [|[k' v'] d IH]; simpl.
  - now rewrite String.eqb_refl.
  - destruct (String.eqb k k') eqn:E; simpl; rewrite E; auto.
Qed.

Lemma dict_get_set_other d k k' v :
  k <> k' -> dict_get (dict_set d k v) k' = dict_get d k'.
Proof.
  intros Hne. induction d as [|[k0 v0] d IH]; simpl.
  - apply String.eqb_neq in Hne. now rewrite String.eqb_sym, Hne.
  - destruct (String.eqb k k0) eqn:E; simpl.
    + apply String.eqb_eq in E; subst k0.
      apply String.eqb_neq in Hne. now rewrite String.eqb_sym, Hne.
    + now rewrite IH.
Qed.

Lemma dict_get_none d k : ~ In k (keys d) -> dict_get d k = None.
Proof.
  induction d as [|[k' v'] d IH]; simpl; intros Hn; auto.
  destruct (String.eqb k k') eqn:E.
  - apply String.eqb_eq in E. subst. tauto.
  - apply IH. tauto.
Qed.

Lemma dict_set_fresh d k v :
  ~ In k (keys d) -> dict_set d k v = d ++ [(k, v)].
Proof.
  induction d as [|[k' v'] d IH]; simpl; intros Hn; auto.
  destruct (String.eqb k k') eqn:E.
  - apply String.eqb_eq in E. subst. tauto.
  - rewrite IH; tauto.
Qed.

Lemma dict_update_app d items :
  NoDup (keys d ++ keys items) -> dict_update d items = d ++ items.
Proof.
  unfold dict_update. revert d.
  induction items as [|[k v] items IH]; intros d Hnd; simpl.
  - now rewrite app_nil_r.
  - assert (Hk : ~ In k (keys d)).
    { intros Hin. unfold keys in Hnd. simpl in Hnd.
      apply NoDup_remove_2 in Hnd. apply Hnd.
      apply in_or_app. now left. }
    rewrite (dict_set_fresh _ _ _ Hk), IH.
    + now rewrite <- app_assoc.
    + unfold keys in *. rewrite map_app. simpl in *.
      rewrite <- app_assoc. exact Hnd.
Qed.

Lemma dict_of_items_wf (items : list (string * V)) :
  dict_wf items -> dict_of_items items = items.
Proof.
  intros H. unfold dict_of_items. now rewrite dict_update_app.
Qed.

End DictFacts.

(** ** Merge *)

Lemma merge_histories_get mergee merger path :
  dict_wf merger ->
  dict_get (merge_histories mergee merger) path =
  match dict_get merger path with
  | Some b =>
      match dict_get mergee path with
      | Some a => Some (merge_entry a b)
      | None => Some b
      end
  | None => dict_get mergee path
  end.
Proof.
  unfold merge_histories, dict_wf. revert mergee.
  induction merger as [|[k e] merger IH]; intros mergee Hwf;
    [reflexivity|].
  inversion Hwf as [|? ? Hk Hwf']; subst.
  cbn [fold_left dict_get].
  rewrite (IH _ Hwf').
  destruct (String.eqb path k) eqn:E.
  - apply String.eqb_eq in E; subst k.
    rewrite (dict_get_none merger path Hk).
    unfold merge_step.
    destruct (dict_get mergee path); apply dict_get_set_same.
  - apply String.eqb_neq in E.
    assert (Hsame : dict_get (merge_step mergee (k, e)) path = dict_get mergee path).
    { unfold merge_step.
      destruct (dict_get mergee k); apply dict_get_set_other; congruence. }
    now rewrite Hsame.
Qed.


(** C4. For every pair of histories and every path: a path in both gets
    last_seen = max, inserts = max and added = min of the two entries; a
    path only in the merger gets the merger's entry unchanged; a path only in
    the mergee keeps its entry.  Merging the stored /a (1000, 1000, 1) with
    the in-memory /a (1000, 2000, 3) gives (1000, 2000, 3). *)
Theorem merge_histories_fields :
  (forall mergee merger path,
      dict_wf merger ->
      (forall a b,
          dict_get mergee path = Some a -> dict_get merger path = Some b ->
          exists r, dict_get (merge_histories mergee merger) path = Some r
                    /\ last_seen r = Z.max (last_seen a) (last_seen b)
                    /\ inserts r = Z.max (inserts a) (inserts b)
                    /\ added r = Z.min (added a) (added b))
      /\ (forall b,
             dict_get mergee path = None -> dict_get merger path = Some b ->
             dict_get (merge_histories mergee merger) path = Some b)
      /\ (forall a,
             dict_get mergee path = Some a -> dict_get merger path = None ->
             dict_get (merge_histories mergee merger) path = Some a))
  /\ merge_histories stored_a in_memory_a = in_memory_a.
Proof.
  split; [|reflexivity].
  intros mergee merger path Hwf.
  pose proof (merge_histories_get mergee merger path Hwf) as H.
  repeat split.
  - intros a b Ha Hb. rewrite Ha, Hb in H.
    exists (merge_entry a b). now repeat split.
  - intros b Ha Hb. now rewrite Ha, Hb in H.
  - intros a Ha Hb. now rewrite Ha, Hb in H.
Qed.

(** The merge of the scenario, through the theorem. *)
Lemma merge_histories_fields_witness :
  dict_wf in_memory_a
  /\ exists r, dict_get (merge_histories stored_a in_memory_a) "/a" = Some r
               /\ last_seen r = 2000 /\ inserts r = 3 /\ added r = 1000.
Proof.
  assert (Hwf : dict_wf in_memory_a).
  { repeat constructor. simpl. tauto. }
  split; [exact Hwf|].
  destruct (proj1 (proj1 merge_histories_fields stored_a in_memory_a
                     "/a"%string Hwf) _ _ eq_refl eq_refl)
    as [r [Hr [H1 [H2 H3]]]].
  exists r. repeat split; assumption.
Defined.

(** C5. Merge is commutative on shared paths: for a path present in both
    histories, merging either way gives it the same last_seen, inserts and
    added. *)
Theorem merge_histories_comm_shared (A B : history) (path : string) (a b : entry) :
  dict_wf A -> dict_wf B ->
  dict_get A path = Some a -> dict_get B path = Some b ->
  exists x y,
    dict_get (merge_histories A B) path = Some x
    /\ dict_get (merge_histories B A) path = Some y
    /\ last_seen x = last_seen y
    /\ inserts x = inserts y
    /\ added x = added y.
Proof.
  intros HA HB Ha Hb.
  exists (merge_entry a b), (merge_entry b a).
  rewrite (merge_histories_get A B path HB), (merge_histories_get B A path HA).
  rewrite Ha, Hb. simpl.
  repeat split; auto using Z.max_comm, Z.min_comm.
Qed.

(** The scenario merged both ways. *)
Lemma merge_histories_comm_shared_witness :
  exists x y,
    dict_get (merge_histories stored_a in_memory_a) "/a" = Some x
    /\ dict_get (merge_histories in_memory_a stored_a) "/a" = Some y
    /\ last_seen x = last_seen y
    /\ inserts x = inserts y
    /\ added x = added y.
Proof.
  apply (merge_histories_comm_shared stored_a in_memory_a "/a"%string
           {| added := 1000; last_seen := 1000; inserts := 1 |}
           {| added := 1000; last_seen := 2000; inserts := 3 |}).
  - repeat constructor. simpl. tauto.
  - repeat constructor. simpl. tauto.
  - reflexivity.
  - reflexivity.
Defined.

(** ** The recency weight of an entry *)

Lemma recency_score_cases ds :
  (ds < 60 /\ recency_score ds = 8)
  \/ (60 <= ds < 3600 /\ recency_score ds = 6)
  \/ (3600 <= ds < 86400 /\ recency_score ds = 4)
  \/ (86400 <= ds < 604800 /\ recency_score ds = 2)
  \/ (604800 <= ds /\ recency_score ds = 1).
Proof.
  unfold recency_score, SECONDS_PER_WEEK, SECONDS_PER_DAY, SECONDS_PER_HOUR,
    SECONDS_PER_MINUTE.
  destruct (Z.ltb_spec ds 60); [left; lia|].
  destruct (Z.ltb_spec ds (60 * 60)); [right; left; lia|].
  destruct (Z.ltb_spec ds (60 * 60 * 24)); [right; right; left; lia|].
  destruct (Z.ltb_spec ds (60 * 60 * 24 * 7)); [right; right; right; left; lia|].
  right; right; right; right; lia.
Qed.

(** C10. For every entry and every time [now], the recency weight applied
    when the entry is scored is at most 6: the age handed to the tier
    function is at least 100 seconds, so the tier of weight 8 (age below 60
    seconds) is never reached through [entry_frecency]. *)
Theorem entry_recency_weight_at_most_6 (e : entry) (now : Z) :
  entry_frecency e now =
    (q <- PyFloat.int_truediv (inserts e) (entry_age e now) ;;
     Ok (PyFloat.mul q (PyFloat.of_int (recency_score (entry_age e now)))))
  /\ 100 <= entry_age e now
  /\ recency_score (entry_age e now) <= 6
  /\ recency_score (entry_age e now) <> 8.
Proof.
  split; [reflexivity|].
  assert (H : 100 <= entry_age e now) by (unfold entry_age; lia).
  split; [exact H|].
  destruct (recency_score_cases (entry_age e now))
    as [[? ?]|[[? ?]|[[? ?]|[[? ?]|[? ?]]]]]; lia.
Qed.

(** ** Eviction *)

Lemma ltb_asym (x y : PyFloat.float) :
  PyFloat.ltb x y = true -> PyFloat.ltb y x = false.
Proof.
  unfold PyFloat.ltb, SFltb.
  destruct x as [sx|sx| |sx mx ex], y as [sy|sy| |sy my ey]; simpl;
    try discriminate; try reflexivity;
    try (destruct sx; discriminate || reflexivity);
    try (destruct sy; discriminate || reflexivity);
    try (destruct sx, sy; discriminate || reflexivity).
  destruct sx, sy; try discriminate; try reflexivity;
    rewrite (Z.compare_antisym ex ey);
    destruct (ex ?= ey) eqn:E; simpl; try discriminate; try reflexivity;
    pose proof (Pos.compare_cont_antisym mx my Eq) as Ha; simpl in Ha;
    rewrite <- Ha;
    destruct (Pos.compare_cont Eq mx my); simpl; try discriminate; reflexivity.
Qed.

Section SortedFacts.
Context {A : Type}.
Implicit Types (l : list (PyFloat.float * A)) (x : PyFloat.float * A).


Lemma descending_tail x l : descending (x :: l) -> descending l.
Proof. inversion 1; subst; auto using descending_nil. Qed.

Lemma insert_desc_descending x l :
  descending l -> descending (insert_desc x l).
Proof.
  induction l as [|y l IH]; intros Hl; simpl.
  - constructor.
  - destruct (PyFloat.ltb (fst x) (fst y)) eqn:E.
    + pose proof (IH (descending_tail _ _ Hl)) as Hi.
      destruct l as [|z l]; simpl in *.
      * constructor; [now apply ltb_asym | constructor].
      * destruct (PyFloat.ltb (fst x) (fst z)) eqn:E2.
        -- inversion Hl; subst. constructor; assumption.
        -- constructor; [now apply ltb_asym | assumption].
    + constructor; assumption.
Qed.

Lemma sort_desc_descending l : descending (sort_desc l).
Proof.
  induction l as [|x l IH]; simpl.
  - constructor.
  - now apply insert_desc_descending.
Qed.

Lemma sort_desc_fixed l : descending l -> sort_desc l = l.
Proof.
  induction l as [|x l IH]; intros Hl; simpl; auto.
  rewrite (IH (descending_tail _ _ Hl)).
  destruct l as [|y l]; simpl; auto.
  inversion Hl as [| |? ? ? Hxy ?]; subst.
  unfold not_below in Hxy. now rewrite Hxy.
Qed.

Lemma descending_firstn n l : descending l -> descending (firstn n l).
Proof.
  revert l. induction n as [|n IH]; intros l Hl; simpl.
  - constructor.
  - destruct l as [|x l]; [constructor|].
    pose proof (IH _ (descending_tail _ _ Hl)) as Hr.
    destruct l as [|y l]; simpl in *.
    + destruct n; constructor.
    + destruct n as [|n]; simpl in *; [constructor|].
      inversion Hl; subst. constructor; assumption.
Qed.

Lemma insert_desc_perm x l : Permutation (insert_desc x l) (x :: l).
Proof.
  induction l as [|y l IH]; simpl; auto.
  destruct (PyFloat.ltb (fst x) (fst y)); auto.
  eapply perm_trans; [apply perm_skip, IH|].
  apply perm_swap.
Qed.

Lemma sort_desc_perm l : Permutation (sort_desc l) l.
Proof.
  induction l as [|x l IH]; simpl; auto.
  eapply perm_trans; [apply insert_desc_perm|].
  now apply perm_skip.
Qed.

Variable key : A -> result PyFloat.float.


Lemma with_keys_ok (items : list A) l :
  with_keys key items = Ok l -> map snd l = items /\ keyed key l.
Proof.
  unfold with_keys, keyed. revert l.
  induction items as [|a items IH]; simpl; intros l H.
  - inversion H; subst. split; constructor.
  - destruct (key a) as [k|] eqn:Ek; simpl in H; [|discriminate].
    destruct (mapM _ items) as [ks|] eqn:Em; simpl in H; [|discriminate].
    inversion H; subst. destruct (IH ks eq_refl) as [H1 H2].
    split; simpl; [now rewrite H1 | constructor; auto].
Qed.

Lemma with_keys_keyed l : keyed key l -> with_keys key (map snd l) = Ok l.
Proof.
  unfold with_keys, keyed.
  induction 1 as [|[k a] l Hk Hl IH]; simpl; auto.
  simpl in Hk. rewrite Hk. simpl. now rewrite IH.
Qed.

Lemma keyed_perm l l' : Permutation l l' -> keyed key l -> keyed key l'.
Proof. intros Hp. unfold keyed. now apply Permutation_Forall. Qed.

Lemma keyed_firstn n l : keyed key l -> keyed key (firstn n l).
Proof.
  unfold keyed. intros H. rewrite <- (firstn_skipn n l) in H.
  apply Forall_app in H. exact (proj1 H).
Qed.

(** Sorting what a sort and a cut have left changes nothing. *)
Lemma sorted_reverse_firstn (items : list A) n l :
  with_keys key items = Ok l ->
  sorted_reverse key (map snd (firstn n (sort_desc l)))
  = Ok (map snd (firstn n (sort_desc l))).
Proof.
  intros H. destruct (with_keys_ok _ _ H) as [_ Hk].
  unfold sorted_reverse.
  rewrite with_keys_keyed.
  - simpl. rewrite sort_desc_fixed; auto.
    apply descending_firstn, sort_desc_descending.
  - apply keyed_firstn. eapply keyed_perm; [|exact Hk].
    apply Permutation_sym, sort_desc_perm.
Qed.

End SortedFacts.

Lemma NoDup_firstn {A : Type} (n : nat) (l : list A) :
  NoDup l -> NoDup (firstn n l).
Proof.
  intros H. rewrite <- (firstn_skipn n l) in H.
  now apply NoDup_app_remove_r in H.
Qed.

Lemma limit_entries_ranked (entries : history) (n now : Z) (r : history) :
  dict_wf entries -> 0 <= n ->
  limit_entries entries n now = Ok r ->
  exists l,
    with_keys (fun x => entry_frecency (snd x) now) entries = Ok l
    /\ r = map snd (firstn (Z.to_nat n) (sort_desc l)).
Proof.
  intros Hwf Hn H. unfold limit_entries, sorted_reverse in H.
  destruct (with_keys _ entries) as [l|] eqn:El; simpl in H; [|discriminate].
  exists l. split; [reflexivity|].
  inversion H; subst; clear H.
  unfold slice_to. destruct (Z.ltb_spec n 0); [lia|].
  rewrite firstn_map. apply dict_of_items_wf.
  unfold dict_wf, keys. rewrite <- firstn_map, <- firstn_map.
  apply NoDup_firstn.
  destruct (with_keys_ok _ _ _ El) as [Hm _].
  eapply Permutation_NoDup; [|exact Hwf].
  unfold keys. rewrite <- Hm.
  apply Permutation_map, Permutation_map, Permutation_sym, sort_desc_perm.
Qed.

Lemma limit_entries_wf (entries : history) (n now : Z) (r : history) :
  dict_wf entries -> 0 <= n ->
  limit_entries entries n now = Ok r -> dict_wf r.
Proof.
  intros Hwf Hn H.
  destruct (limit_entries_ranked _ _ _ _ Hwf Hn H) as [l [El ->]].
  unfold dict_wf, keys. rewrite <- firstn_map, <- firstn_map.
  apply NoDup_firstn.
  destruct (with_keys_ok _ _ _ El) as [Hm _].
  eapply Permutation_NoDup; [|exact Hwf].
  unfold keys. rewrite <- Hm.
  apply Permutation_map, Permutation_map, Permutation_sym, sort_desc_perm.
Qed.


(** A store that [limit_entries] has returned is returned again as it is. *)
Lemma limit_entries_fixed (entries : history) (n now : Z) (r : history) :
  dict_wf entries -> 0 <= n ->
  limit_entries entries n now = Ok r ->
  limit_entries r n now = Ok r.
Proof.
  intros Hwf Hn H.
  pose proof (limit_entries_wf _ _ _ _ Hwf Hn H) as Hr.
  destruct (limit_entries_ranked _ _ _ _ Hwf Hn H) as [l [El Er]].
  unfold limit_entries.
  rewrite Er at 1.
  rewrite (sorted_reverse_firstn _ entries _ _ El). simpl.
  rewrite <- Er.
  unfold slice_to. destruct (Z.ltb_spec n 0); [lia|].
  rewrite firstn_all2.
  - now rewrite dict_of_items_wf.
  - rewrite Er, length_map. apply firstn_le_length.
Qed.

(** C9, as amended. Eviction is idempotent for a bound that is not
    negative: for every store, bound [n >= 0] and time [now], applying
    [limit_entries] twice with the same [n] and [now] gives what applying it
    once gives, the same entries in the same order (or the same exception,
    when a score cannot be computed). *)
Theorem limit_entries_idempotent (entries : history) (n now : Z) :
  dict_wf entries -> 0 <= n ->
  (r <- limit_entries entries n now ;; limit_entries r n now)
  = limit_entries entries n now.
Proof.
  intros Hwf Hn.
  destruct (limit_entries entries n now) as [r|e] eqn:E; simpl.
  - now apply (limit_entries_fixed entries n now r).
  - reflexivity.
Qed.

(** Two entries cut to the better one, twice. *)
Lemma limit_entries_idempotent_witness :
  (r <- limit_entries two_entries 1 2000 ;; limit_entries r 1 2000)
  = Ok [("/a"%string, {| added := 1000; last_seen := 1000; inserts := 3 |})].
Proof.
  rewrite (limit_entries_idempotent two_entries 1 2000).
  - vm_compute. reflexivity.
  - unfold dict_wf, two_entries, keys; simpl.
    repeat constructor; simpl; intuition discriminate.
  - lia.
Defined.

(** C9 as stated fails for a negative bound, which the slice [[:n]] reads
    from the end: with [n = -1] the first application drops the last of two
    entries and the second drops the one that was left. *)
Lemma limit_entries_negative_bound_shrinks :
  limit_entries two_entries (-1) 2000
    = Ok [("/a"%string, {| added := 1000; last_seen := 1000; inserts := 3 |})]
  /\ (r <- limit_entries two_entries (-1) 2000 ;; limit_entries r (-1) 2000)
     = Ok []
  /\ (r <- limit_entries two_entries (-1) 2000 ;; limit_entries r (-1) 2000)
     <> limit_entries two_entries (-1) 2000.
Proof.
  split; [vm_compute; reflexivity|].
  split; [vm_compute; reflexivity|].
  vm_compute. discriminate.
Qed.

(** ** Recording visits *)

(** C8 fails after a path has been found missing once. The set
    [paths_to_remove] is never emptied, so each later save drops the path
    again: /x is not in the store before the visit, and the visit, being the
    fiftieth recording, saves and leaves no entry for /x, where the claim
    promises an entry with inserts = 1. *)
Theorem revisit_after_removal_loses_entry :
  dict_get (master_history (state session_dropped)) "/x" = None
  /\ paths_to_remove (state session_dropped) = ["/x"%string]
  /\ save_cycle (state session_dropped) = 49
  /\ dict_get (master_history (state session_revisited)) "/x" = None.
Proof. vm_compute. repeat split. Qed.

(** ** The score fractions of the quick panel *)

Lemma add_zeros (x y : PyFloat.float) :
  PyFloat.is_zero x = true -> PyFloat.is_zero y = true ->
  PyFloat.is_zero (PyFloat.add x y) = true.
Proof.
  destruct x as [sx| | |], y as [sy| | |]; try discriminate.
  intros _ _. destruct sx, sy; reflexivity.
Qed.

Lemma fold_add_zeros (l : list PyFloat.float) (acc : PyFloat.float) :
  PyFloat.is_zero acc = true ->
  Forall (fun x => PyFloat.is_zero x = true) l ->
  PyFloat.is_zero (fold_left PyFloat.add l acc) = true.
Proof.
  intros Hacc Hl. revert acc Hacc.
  induction Hl as [|x l Hx Hl IH]; intros acc Hacc; simpl; auto.
  apply IH. now apply add_zeros.
Qed.

Lemma sorted_by_score_perm (data : list panel_entry) :
  Permutation (map snd (sort_desc (map (fun a => (score a, a)) data))) data.
Proof.
  eapply perm_trans.
  - apply Permutation_map, sort_desc_perm.
  - rewrite map_map. simpl. rewrite map_id. apply Permutation_refl.
Qed.

(** C6, as amended. The normalisation has no guard. When the result set is
    empty no division is made and the panel data is the empty list; when it
    is not empty and every score is zero, the total is zero and the first
    division raises ZeroDivisionError, so no display list is produced. *)
Theorem panel_data_zero_total (h : history) (find_open_file : string -> bool)
  (window_folders : list string) (open_status_filter : OpenStatusFilter)
  (now : Z) (data : list panel_entry) :
  get_data_list_for_panel h find_open_file window_folders open_status_filter now
    = Ok data ->
  (data = [] ->
   panel_data h find_open_file window_folders open_status_filter now = Ok [])
  /\ (data <> [] ->
      Forall (fun a => PyFloat.is_zero (score a) = true) data ->
      panel_data h find_open_file window_folders open_status_filter now
        = Raise ZeroDivisionError).
Proof.
  intros Hd. unfold panel_data. rewrite Hd. simpl. split.
  - intros ->. reflexivity.
  - intros Hne Hz.
    pose proof (sorted_by_score_perm data) as Hp.
    set (l := map snd (sort_desc (map (fun a => (score a, a)) data))) in *.
    assert (Hzl : Forall (fun a => PyFloat.is_zero (score a) = true) l).
    { eapply Permutation_Forall; [apply Permutation_sym, Hp | exact Hz]. }
    assert (Ht : PyFloat.is_zero (total_score l) = true).
    { unfold total_score. apply fold_add_zeros; [reflexivity|].
      rewrite Forall_map. exact Hzl. }
    destruct l as [|a l].
    + apply Permutation_nil in Hp. congruence.
    + simpl. unfold PyFloat.truediv. rewrite Ht. reflexivity.
Qed.

(** An entry without a visit: the division raises. *)
Lemma panel_data_zero_total_witness :
  panel_data unvisited_a (fun _ => false) [] BOTH 2000 = Raise ZeroDivisionError.
Proof.
  refine (proj2 (panel_data_zero_total unvisited_a (fun _ => false) [] BOTH 2000
                   _ eq_refl) _ _).
  - discriminate.
  - repeat constructor.
Defined.

(** C6 as stated fails: a history whose one entry has no visit yet has a
    total score of zero, and the panel data is not an empty list but a
    ZeroDivisionError. *)
Lemma panel_data_unguarded :
  panel_data unvisited_a (fun _ => false) [] BOTH 2000 = Raise ZeroDivisionError
  /\ panel_data unvisited_a (fun _ => false) [] BOTH 2000 <> Ok [].
Proof. split; [vm_compute; reflexivity | vm_compute; discriminate]. Qed.

(** ** Load *)

(** C3 fails for a file that is not JSON: [load_master_history_from_file]
    catches IOError only, so the JSONDecodeError of [json.load] leaves the
    function; a missing or unreadable file is survived, with the state as it
    was.  Such a file is within reach of the plugin itself: a save that
    finds no file and has nothing to write leaves an empty one behind.  The
    save, for its part, takes a file that is not JSON for an empty store
    and raises no JSONDecodeError. *)
Theorem load_not_json_raises (st : global_state) :
  load_master_history_from_file {| state := st; disk := NotJson |}
    = ({| state := st; disk := NotJson |}, Raised JSONDecodeError)
  /\ load_master_history_from_file {| state := st; disk := NoFile |}
     = ({| state := st; disk := NoFile |}, Returned)
  /\ load_master_history_from_file {| state := st; disk := Unreadable |}
     = ({| state := st; disk := Unreadable |}, Returned)
  /\ disk session_revisited = NotJson
  /\ snd (load_master_history_from_file session_revisited)
     = Raised JSONDecodeError
  /\ save_master_history_to_file 100 2000
       {| state := set_master initial_state in_memory_a; disk := NotJson |}
     = ({| state := set_master initial_state in_memory_a;
           disk := Stored in_memory_a |}, Returned).
Proof. repeat split. Qed.

(** ** Save *)

Section KeysFacts.
Context {V : Type}.
Implicit Types (d : dict V) (k : string).

Lemma keys_dict_set d k k' (v : V) :
  In k (keys (dict_set d k' v)) -> k = k' \/ In k (keys d).
Proof.
  induction d as [|[k0 v0] d IH]; simpl.
  - intros [H|[]]; auto.
  - destruct (String.eqb k' k0) eqn:E; simpl; intros [H|H]; auto.
    destruct (IH H); auto.
Qed.

Lemma keys_dict_update d items k :
  In k (keys (dict_update d items)) -> In k (keys d) \/ In k (keys items).
Proof.
  unfold dict_update. revert d.
  induction items as [|[k0 v0] items IH]; intros d; simpl; auto.
  intros H. destruct (IH _ H) as [H1|H1]; auto.
  apply keys_dict_set in H1. destruct H1; auto.
Qed.

Lemma keys_firstn n d k : In k (keys (firstn n d)) -> In k (keys d).
Proof.
  unfold keys. rewrite <- (firstn_skipn n d) at 2. rewrite map_app.
  intros H. apply in_or_app. now left.
Qed.

End KeysFacts.

Lemma keys_limit_entries (entries : history) (n now : Z) (r : history) k :
  limit_entries entries n now = Ok r -> In k (keys r) -> In k (keys entries).
Proof.
  unfold limit_entries, sorted_reverse. intros H Hk.
  destruct (with_keys _ entries) as [l|] eqn:El; simpl in H; [|discriminate].
  inversion H; subst; clear H.
  apply keys_dict_update in Hk. destruct Hk as [[]|Hk].
  assert (Hs : In k (keys (map snd (sort_desc l)))).
  { unfold slice_to in Hk. destruct (n <? 0); eapply keys_firstn; eauto. }
  destruct (with_keys_ok _ _ _ El) as [Hm _].
  rewrite <- Hm. unfold keys in *.
  eapply Permutation_in; [|exact Hs].
  apply Permutation_map, Permutation_map, sort_desc_perm.
Qed.

Lemma insert_key_perm x (l : history) : Permutation (insert_key x l) (x :: l).
Proof.
  induction l as [|y l IH]; simpl; auto.
  destruct (String.leb (fst x) (fst y)); auto.
  eapply perm_trans; [apply perm_skip, IH | apply perm_swap].
Qed.

Lemma json_dump_perm (h : history) :
  exists h', json_dump h = Stored h' /\ Permutation h' h.
Proof.
  unfold json_dump. eexists. split; [reflexivity|].
  induction h as [|x h IH]; simpl; auto.
  eapply perm_trans; [apply insert_key_perm | now apply perm_skip].
Qed.

(** What a save does once the file has been read and the bound applied. *)
Lemma save_steps (max_entries now : Z) (w : world) (stored smh : history) :
  disk w = Stored stored ->
  limit_entries (master_history (remove_paths_to_remove (state w)))
    max_entries now = Ok smh ->
  save_master_history_to_file max_entries now w
  = ({| state := remove_paths_to_remove (state w);
        disk := if enough_entries (len smh) (len stored)
                then json_dump smh else Stored stored |},
     Returned).
Proof.
  intros Hd Hl. unfold save_master_history_to_file.
  rewrite Hd, Hl. destruct (enough_entries _ _); reflexivity.
Qed.

(** C1, as amended. A save reads the file but does not merge it: of what is
    stored only the number of entries is used, in the guard.  The state is
    left as the pending removals leave it, the file is either left as it was
    or replaced by the ranked in-memory entries alone, and every path of a
    written snapshot is a path of the in-memory history. *)
Theorem save_writes_memory_only (max_entries now : Z) (w : world)
  (stored smh : history) :
  disk w = Stored stored ->
  limit_entries (master_history (remove_paths_to_remove (state w)))
    max_entries now = Ok smh ->
  save_master_history_to_file max_entries now w
  = ({| state := remove_paths_to_remove (state w);
        disk := if enough_entries (len smh) (len stored)
                then json_dump smh else Stored stored |},
     Returned)
  /\ forall written p,
       json_dump smh = Stored written ->
       In p (keys written) ->
       In p (keys (master_history (remove_paths_to_remove (state w)))).
Proof.
  intros Hd Hl. split; [now apply save_steps|].
  intros written p Hw Hp.
  destruct (json_dump_perm smh) as [h' [Hh' Hperm]].
  rewrite Hh' in Hw. inversion Hw; subst h'.
  eapply keys_limit_entries; [exact Hl|].
  unfold keys in *. eapply Permutation_in; [|exact Hp].
  now apply Permutation_map.
Qed.

(** Memory holds /a and the file holds /b: /a alone is written. *)
Lemma save_writes_memory_only_witness :
  save_master_history_to_file 100 2000 memory_a_disk_b
  = ({| state := state memory_a_disk_b; disk := Stored in_memory_a |}, Returned).
Proof.
  exact (proj1 (save_writes_memory_only 100 2000 memory_a_disk_b
                  [("/b"%string, {| added := 500; last_seen := 600; inserts := 2 |})]
                  in_memory_a eq_refl eq_refl)).
Defined.

(** C1 as stated fails: with /a in memory and /b on disk the save writes
    /a alone, and the entry that was only on disk is gone from the file. *)
Lemma save_drops_disk_only_entry :
  exists written,
    disk (fst (save_master_history_to_file 100 2000 memory_a_disk_b))
      = Stored written
    /\ dict_get written "/a" <> None
    /\ dict_get written "/b" = None.
Proof.
  exists in_memory_a. vm_compute. repeat split. discriminate.
Qed.

(** ** The guard of the save *)

Lemma to_Q_finite m e :
  PyFloat.to_Q (S754_finite false m e) = (inject_Z (Zpos m) * pow2 e)%Q.
Proof. reflexivity. Qed.

Lemma inject_Z_nonneg_lt (m n k1 k2 : Z) :
  k1 * m < k2 * n ->
  (inject_Z k1 * inject_Z m + 1 <= inject_Z k2 * inject_Z n)%Q.
Proof.
  intros H. change 1%Q with (inject_Z 1).
  rewrite <- !inject_Z_mult, <- inject_Z_plus, <- Zle_Qle. lia.
Qed.

(** Below [2^49] entries on disk the guard is the comparison of
    [10 * state_len] with [7 * stored_len] whenever the two differ. *)
Lemma enough_entries_spec (m n : Z) :
  0 <= m -> 0 <= n < 2 ^ 49 ->
  (10 * m < 7 * n -> enough_entries m n = false)
  /\ (7 * n < 10 * m -> enough_entries m n = true).
Proof.
  intros Hm Hn. unfold enough_entries.
  destruct (Z.eq_dec n 0) as [->|Hn0].
  - split; intros H.
    + lia.
    + destruct m as [|pm|pm]; [lia|reflexivity|lia].
  - destruct (of_int_exact n) as [m2 [e2 [Ho [Hd2 [He2 Hv2]]]]].
    { change (2 ^ 53) with 9007199254740992.
      change (2 ^ 49) with 562949953421312 in Hn. lia. }
    rewrite Ho. unfold PyFloat.seven_tenths.
    destruct (mul_correct 6305039478318694 (-53) m2 e2 eq_refl Hd2 ltac:(lia))
      as [mr [er [Hmul [Hdr [Her Hc]]]]].
    rewrite Hmul. unfold PyFloat.int_gt. rewrite to_Q_finite.
    unfold rel_close, u53 in Hc. rewrite Hv2 in Hc.
    change (pow2 (-53)) with (1 # 9007199254740992)%Q in Hc.
    set (val := (inject_Z (Zpos mr) * pow2 er)%Q) in *.
    assert (HN : (inject_Z n <= 562949953421311)%Q).
    { change 562949953421311%Q with (inject_Z 562949953421311).
      rewrite <- Zle_Qle. change (2 ^ 49) with 562949953421312 in Hn. lia. }
    assert (HN0 : (0 <= inject_Z n)%Q).
    { change 0%Q with (inject_Z 0). rewrite <- Zle_Qle. lia. }
    change (inject_Z 6305039478318694) with 6305039478318694%Q in Hc.
    split; intros H.
    + apply inject_Z_nonneg_lt in H.
      change (inject_Z 10) with 10%Q in H. change (inject_Z 7) with 7%Q in H.
      destruct (Qcompare val (inject_Z m)) eqn:Ec; try reflexivity.
      apply Qlt_alt in Ec. lra.
    + apply inject_Z_nonneg_lt in H.
      change (inject_Z 10) with 10%Q in H. change (inject_Z 7) with 7%Q in H.
      destruct (Qcompare val (inject_Z m)) eqn:Ec; try reflexivity.
      * apply Qeq_alt in Ec. lra.
      * apply Qgt_alt in Ec. lra.
Qed.

Lemma len_nonneg {A : Type} (l : list A) : 0 <= len l.
Proof. unfold len. lia. Qed.

(** C2, as amended. For every save that finds fewer than [2^49] entries on
    disk: when the count about to be written is less than 70% of the stored
    count the write is aborted, the file is left unchanged and no exception
    is raised; when it is more than 70% the write proceeds.  At exactly 70%
    the comparison [len(state) > 0.7 * len(stored)] decides on the rounded
    product: 7 over 10 and 70 over 100 are aborted, 63 over 90 is written.
    Saving 60 over 100 is aborted. *)
Theorem save_guard (max_entries now : Z) (w : world) (stored smh : history) :
  disk w = Stored stored ->
  limit_entries (master_history (remove_paths_to_remove (state w)))
    max_entries now = Ok smh ->
  len stored < 2 ^ 49 ->
  (10 * len smh < 7 * len stored ->
   save_master_history_to_file max_entries now w
   = ({| state := remove_paths_to_remove (state w); disk := Stored stored |},
      Returned))
  /\ (7 * len stored < 10 * len smh ->
      save_master_history_to_file max_entries now w
      = ({| state := remove_paths_to_remove (state w); disk := json_dump smh |},
         Returned))
  /\ enough_entries 60 100 = false
  /\ enough_entries 7 10 = false
  /\ enough_entries 70 100 = false
  /\ enough_entries 63 90 = true.
Proof.
  intros Hd Hl Hn.
  rewrite (save_steps _ _ _ _ _ Hd Hl).
  destruct (enough_entries_spec (len smh) (len stored) (len_nonneg _)
              (conj (len_nonneg _) Hn)) as [Hlow Hhigh].
  split; [intros H; now rewrite (Hlow H)|].
  split; [intros H; now rewrite (Hhigh H)|].
  repeat split; vm_compute; reflexivity.
Qed.

(** Six entries over ten on disk: nothing is written. *)
Lemma save_guard_witness :
  save_master_history_to_file 100 2000
    {| state := set_master initial_state (entries_upto 6);
       disk := Stored (entries_upto 10) |}
  = ({| state := set_master initial_state (entries_upto 6);
        disk := Stored (entries_upto 10) |}, Returned).
Proof.
  refine (proj1 (save_guard 100 2000
                   {| state := set_master initial_state (entries_upto 6);
                      disk := Stored (entries_upto 10) |}
                   (entries_upto 10) (entries_upto 6) eq_refl _ _) _).
  - vm_compute. reflexivity.
  - vm_compute. reflexivity.
  - vm_compute. reflexivity.
Defined.

(** C2 as stated fails at exactly 70%: seven entries are not less than 70%
    of ten, yet the write is aborted and the file keeps its ten entries. *)
Lemma save_aborted_at_seventy_percent :
  limit_entries (master_history (state seven_over_ten)) 100 2000
    = Ok (entries_upto 7)
  /\ ~ (10 * len (entries_upto 7) < 7 * len (entries_upto 10))
  /\ save_master_history_to_file 100 2000 seven_over_ten
     = (seven_over_ten, Returned).
Proof.
  split; [vm_compute; reflexivity|].
  split; [vm_compute; discriminate|].
  vm_compute. reflexivity.
Qed.

(** ** The score *)

(** The score of a positive count at a positive age: a normal float within
    two roundings of [count / age * weight]. *)
Lemma frecency_correct (age count : Z) :
  0 < count < 2 ^ 53 -> 0 < age < 2 ^ 63 ->
  exists m e Vq,
    frecency age count = Ok (S754_finite false m e)
    /\ digits2_pos m = 53%positive
    /\ rel_close (inject_Z count / inject_Z age) Vq
    /\ rel_close (Vq * inject_Z (recency_score age)) (inject_Z (Zpos m) * pow2 e).
Proof.
  intros Hc Ha.
  destruct (int_truediv_correct count age Hc Ha)
    as [mq [eq [Hq [Hdq [Heq Hvq]]]]].
  assert (Hw : 0 < recency_score age < 2 ^ 53).
  { change (2 ^ 53) with 9007199254740992.
    destruct (recency_score_cases age)
      as [[? ?]|[[? ?]|[[? ?]|[[? ?]|[? ?]]]]]; lia. }
  destruct (of_int_exact _ Hw) as [mw [ew [Hwf [Hdw [Hew Hvw]]]]].
  destruct (mul_correct mq eq mw ew Hdq Hdw ltac:(lia))
    as [m [e [Hmul [Hdm [He Hv]]]]].
  exists m, e, (inject_Z (Zpos mq) * pow2 eq)%Q.
  unfold frecency. rewrite Hq. cbv [bind]. rewrite Hwf, Hmul.
  split; [reflexivity|]. split; [exact Hdm|]. split; [exact Hvq|].
  unfold rel_close in *. rewrite Hvw in Hv. exact Hv.
Qed.

Lemma frecency_zero (age : Z) :
  0 < age < 2 ^ 63 -> frecency age 0 = Ok (S754_zero false).
Proof.
  intros Ha.
  assert (Hw : 0 < recency_score age < 2 ^ 53).
  { change (2 ^ 53) with 9007199254740992.
    destruct (recency_score_cases age)
      as [[? ?]|[[? ?]|[[? ?]|[[? ?]|[? ?]]]]]; lia. }
  destruct (of_int_exact _ Hw) as [mw [ew [Hwf _]]].
  unfold frecency, PyFloat.int_truediv.
  destruct age as [|pa|pa]; [lia| |lia].
  simpl. rewrite Hwf. reflexivity.
Qed.

Lemma quotient_step (c1 c2 a : Z) :
  0 < a -> c1 < c2 ->
  (inject_Z c1 / inject_Z a + / inject_Z a <= inject_Z c2 / inject_Z a)%Q.
Proof.
  intros Ha Hc.
  assert (HA : (0 < / inject_Z a)%Q).
  { apply Qinv_lt_0_compat. change 0%Q with (inject_Z 0).
    now rewrite <- Zlt_Qlt. }
  assert (H : (inject_Z c1 + 1 <= inject_Z c2)%Q).
  { change 1%Q with (inject_Z 1). rewrite <- inject_Z_plus, <- Zle_Qle. lia. }
  apply Qmult_le_compat_r with (z := (/ inject_Z a)%Q) in H; [|lra].
  unfold Qdiv. lra.
Qed.

Lemma quotient_bound (c a k : Z) :
  0 < a -> c <= k ->
  (inject_Z c / inject_Z a <= inject_Z k * / inject_Z a)%Q.
Proof.
  intros Ha Hc.
  assert (HA : (0 < / inject_Z a)%Q).
  { apply Qinv_lt_0_compat. change 0%Q with (inject_Z 0).
    now rewrite <- Zlt_Qlt. }
  unfold Qdiv. apply Qmult_le_compat_r; [|lra].
  now rewrite <- Zle_Qle.
Qed.

Lemma quotient_pos (c a : Z) :
  0 < a -> 0 < c -> (0 < inject_Z c / inject_Z a)%Q.
Proof.
  intros Ha Hc. unfold Qdiv. apply Qmult_lt_0_compat.
  - change 0%Q with (inject_Z 0). now rewrite <- Zlt_Qlt.
  - apply Qinv_lt_0_compat. change 0%Q with (inject_Z 0).
    now rewrite <- Zlt_Qlt.
Qed.

Lemma quotient_antitone (c a1 a2 : Z) :
  0 < c -> 0 < a1 -> a1 <= a2 ->
  (inject_Z c / inject_Z a2 <= inject_Z c / inject_Z a1)%Q.
Proof.
  intros Hc H1 H2.
  assert (HA1 : (0 < inject_Z a1)%Q)
    by (change 0%Q with (inject_Z 0); now rewrite <- Zlt_Qlt).
  assert (HA2 : (0 < inject_Z a2)%Q)
    by (change 0%Q with (inject_Z 0); rewrite <- Zlt_Qlt; lia).
  assert (HC : (0 < inject_Z c)%Q)
    by (change 0%Q with (inject_Z 0); now rewrite <- Zlt_Qlt).
  apply Qle_shift_div_l; [exact HA1|].
  unfold Qdiv. rewrite <- Qmult_assoc, (Qmult_comm (/ inject_Z a2)).
  rewrite Qmult_assoc. apply Qle_shift_div_r; [exact HA2|].
  apply Qmult_le_l; [exact HC|]. now rewrite <- Zle_Qle.
Qed.

Ltac weight_numeral H :=
  change (inject_Z 8) with 8%Q in H; change (inject_Z 6) with 6%Q in H;
  change (inject_Z 4) with 4%Q in H; change (inject_Z 2) with 2%Q in H;
  change (inject_Z 1) with 1%Q in H.

(** C7, as amended. For a positive visit count (below [2^53]) the score
    strictly decreases when the age (positive, below [2^63]) increases
    across a tier boundary; for a fixed positive age the score strictly
    increases with the visit count, for counts from 0 up to [2^50]. *)
Theorem frecency_monotone :
  (forall count a1 a2,
      0 < count < 2 ^ 53 -> 0 < a1 -> a1 < a2 -> a2 < 2 ^ 63 ->
      recency_score a1 <> recency_score a2 ->
      exists s1 s2,
        frecency a1 count = Ok s1 /\ frecency a2 count = Ok s2
        /\ PyFloat.ltb s2 s1 = true)
  /\ (forall age c1 c2,
         0 < age < 2 ^ 63 -> 0 <= c1 -> c1 < c2 -> c2 < 2 ^ 50 ->
         exists s1 s2,
           frecency age c1 = Ok s1 /\ frecency age c2 = Ok s2
           /\ PyFloat.ltb s1 s2 = true).
Proof.
  split.
  - intros count a1 a2 Hc Ha1 Ha12 Ha2 Hw.
    destruct (frecency_correct a1 count Hc ltac:(lia))
      as [m1 [e1 [V1 [Hf1 [Hd1 [Hq1 Hs1]]]]]].
    destruct (frecency_correct a2 count Hc ltac:(lia))
      as [m2 [e2 [V2 [Hf2 [Hd2 [Hq2 Hs2]]]]]].
    exists (S754_finite false m1 e1), (S754_finite false m2 e2).
    split; [exact Hf1|]. split; [exact Hf2|].
    apply ltb_of_value; [exact Hd2|exact Hd1|].
    pose proof (quotient_antitone count a1 a2 (proj1 Hc) Ha1 ltac:(lia)) as HT.
    pose proof (quotient_pos count a2 ltac:(lia) (proj1 Hc)) as HT2.
    set (T1 := (inject_Z count / inject_Z a1)%Q) in *.
    set (T2 := (inject_Z count / inject_Z a2)%Q) in *.
    set (S1 := (inject_Z (Zpos m1) * pow2 e1)%Q) in *.
    set (S2 := (inject_Z (Zpos m2) * pow2 e2)%Q) in *.
    clearbody T1 T2 S1 S2.
    unfold rel_close, u53 in *.
    destruct (recency_score_cases a1)
      as [[R1 E1]|[[R1 E1]|[[R1 E1]|[[R1 E1]|[R1 E1]]]]];
    destruct (recency_score_cases a2)
      as [[R2 E2]|[[R2 E2]|[[R2 E2]|[[R2 E2]|[R2 E2]]]]];
    try lia;
    rewrite E1 in Hs1; rewrite E2 in Hs2;
    weight_numeral Hs1; weight_numeral Hs2;
    clear - Hq1 Hs1 Hq2 Hs2 HT HT2; lra.
  - intros age c1 c2 Ha Hc1 Hc12 Hc2.
    destruct (frecency_correct age c2) as [m2 [e2 [V2 [Hf2 [Hd2 [Hq2 Hs2]]]]]];
      [change (2 ^ 53) with 9007199254740992;
       change (2 ^ 50) with 1125899906842624 in Hc2; lia | exact Ha |].
    destruct (Z.eq_dec c1 0) as [->|Hne].
    + exists (S754_zero false), (S754_finite false m2 e2).
      split; [now apply frecency_zero|]. split; [exact Hf2|reflexivity].
    + destruct (frecency_correct age c1) as [m1 [e1 [V1 [Hf1 [Hd1 [Hq1 Hs1]]]]]];
        [change (2 ^ 53) with 9007199254740992;
         change (2 ^ 50) with 1125899906842624 in Hc2; lia | exact Ha |].
      exists (S754_finite false m1 e1), (S754_finite false m2 e2).
      split; [exact Hf1|]. split; [exact Hf2|].
      apply ltb_of_value; [exact Hd1|exact Hd2|].
      pose proof (quotient_step c1 c2 age (proj1 Ha) Hc12) as Hstep.
      pose proof (quotient_bound c1 age 1125899906842624 (proj1 Ha)) as Hbound.
      change (2 ^ 50) with 1125899906842624 in Hc2.
      specialize (Hbound ltac:(lia)).
      change (inject_Z 1125899906842624) with 1125899906842624%Q in Hbound.
      assert (HA : (0 < / inject_Z age)%Q).
      { apply Qinv_lt_0_compat. change 0%Q with (inject_Z 0).
        rewrite <- Zlt_Qlt. lia. }
      pose proof (quotient_pos c1 age (proj1 Ha) ltac:(lia)) as HT1.
      set (T1 := (inject_Z c1 / inject_Z age)%Q) in *.
      set (T2 := (inject_Z c2 / inject_Z age)%Q) in *.
      set (A := (/ inject_Z age)%Q) in *.
      set (S1 := (inject_Z (Zpos m1) * pow2 e1)%Q) in *.
      set (S2 := (inject_Z (Zpos m2) * pow2 e2)%Q) in *.
      clearbody T1 T2 A S1 S2.
      unfold rel_close, u53 in *.
      destruct (recency_score_cases age)
        as [[R E]|[[R E]|[[R E]|[[R E]|[R E]]]]];
      rewrite E in Hs1, Hs2;
      weight_numeral Hs1; weight_numeral Hs2;
      clear - Hq1 Hs1 Hq2 Hs2 Hstep Hbound HA HT1; lra.
Qed.

(** C7 as stated fails in both halves.  With no visit the score is zero
    on both sides of the boundary between 59 and 60 seconds, so it does not
    decrease; and at age 100 the counts [2^53 * 100] and [2^53 * 100 + 1]
    have the same quotient once rounded, so the score does not increase. *)
Lemma frecency_not_strict :
  recency_score 59 = 8 /\ recency_score 60 = 6
  /\ frecency 59 0 = Ok (S754_zero false)
  /\ frecency 60 0 = Ok (S754_zero false)
  /\ PyFloat.ltb (S754_zero false) (S754_zero false) = false
  /\ frecency 100 (2 ^ 53 * 100) = Ok (S754_finite false 6755399441055744 3)
  /\ frecency 100 (2 ^ 53 * 100 + 1) = Ok (S754_finite false 6755399441055744 3)
  /\ PyFloat.ltb (S754_finite false 6755399441055744 3)
       (S754_finite false 6755399441055744 3) = false.
Proof. repeat split; vm_compute; reflexivity. Qed.

(** Five visits across the first tier boundary, and five against six visits. *)
Lemma frecency_monotone_witness :
  (exists s1 s2,
      frecency 59 5 = Ok s1 /\ frecency 60 5 = Ok s2
      /\ PyFloat.ltb s2 s1 = true)
  /\ (exists s1 s2,
         frecency 100 5 = Ok s1 /\ frecency 100 6 = Ok s2
         /\ PyFloat.ltb s1 s2 = true).
Proof.
  split.
  - apply (proj1 frecency_monotone 5 59 60).
    + vm_compute. split; reflexivity.
    + lia.
    + lia.
    + vm_compute. reflexivity.
    + vm_compute. discriminate.
  - apply (proj2 frecency_monotone 100 5 6).
    + vm_compute. split; reflexivity.
    + lia.
    + lia.
    + vm_compute. reflexivity.
Defined.

(** ** Visits to a path that is not pending removal *)

Lemma dict_get_pop_other {V : Type} (d : dict V) k k' :
  k <> k' -> dict_get (dict_pop d k) k' = dict_get d k'.
Proof.
  intros Hne. induction d as [|[k0 v0] d IH]; simpl; auto.
  destruct (String.eqb k k0) eqn:E; simpl.
  - apply String.eqb_eq in E; subst k0.
    apply String.eqb_neq in Hne. now rewrite String.eqb_sym, Hne.
  - now rewrite IH.
Qed.

Lemma remove_paths_frame (ps : list string) (st : global_state) (p : string) :
  ~ In p ps ->
  let st' := fold_left remove_path ps st in
  dict_get (master_history st') p = dict_get (master_history st) p
  /\ active st' = active st
  /\ paths_to_remove st' = paths_to_remove st
  /\ save_cycle st' = save_cycle st.
Proof.
  revert st. induction ps as [|q ps IH]; intros st Hn; simpl.
  - repeat split.
  - destruct (IH (remove_path st q)) as [H1 [H2 [H3 H4]]].
    { intros Hin. apply Hn. now right. }
    rewrite H1, H2, H3, H4. simpl.
    repeat split. apply dict_get_pop_other.
    intros ->. apply Hn. now left.
Qed.

Lemma save_state (max_entries now : Z) (w : world) :
  state (fst (save_master_history_to_file max_entries now w))
  = remove_paths_to_remove (state w).
Proof.
  unfold save_master_history_to_file.
  destruct (disk w); simpl; try reflexivity;
    destruct (limit_entries _ _ _); simpl; try reflexivity;
    destruct (enough_entries _ _); reflexivity.
Qed.

(** One recording of a path that is not pending removal: the entry is the
    one found, or a new one, seen at [now] and counted once more. *)
Lemma record_seen_step (max_entries clock window : Z) (p : string) (now : Z)
  (w : world) :
  ~ In p (paths_to_remove (state w)) ->
  let w' := fst (record_seen_path_in_window max_entries clock window p now w) in
  dict_get (master_history (state w')) p
  = Some (seen_entry clock (master_history (state w)) p now)
  /\ active (state w') = active (state w)
  /\ paths_to_remove (state w') = paths_to_remove (state w).
Proof.
  intros Hn. unfold record_seen_path_in_window, next_save_cycle.
  set (st1 := seen_state clock window p now (state w)).
  assert (H1 : dict_get (master_history st1) p
               = Some (seen_entry clock (master_history (state w)) p now))
    by apply dict_get_set_same.
  assert (H2 : active st1 = active (state w)) by reflexivity.
  assert (H3 : paths_to_remove st1 = paths_to_remove (state w)) by reflexivity.
  clearbody st1.
  destruct ((save_cycle st1 + 1) mod SAVE_EVERY =? 0); cbv zeta.
  - rewrite save_state. unfold remove_paths_to_remove.
    cbn [state paths_to_remove set_save_cycle].
    rewrite <- H3 in Hn.
    destruct (remove_paths_frame (paths_to_remove st1)
                (set_save_cycle st1 ((save_cycle st1 + 1) mod SAVE_EVERY)) p Hn)
      as [F1 [F2 [F3 _]]].
    rewrite F1, F2, F3. cbn [master_history active paths_to_remove set_save_cycle].
    rewrite H1, H2, H3. repeat split.
  - cbn [fst state master_history active paths_to_remove set_save_cycle].
    rewrite H1, H2, H3. repeat split.
Qed.

Lemma visit_step (max_entries window : Z) (p : string) (now : Z) (w : world) :
  active (state w) = false ->
  ~ In p (paths_to_remove (state w)) ->
  let w' := fst (record_view_in_window max_entries now (Some window) (Some p)
                   true now w) in
  dict_get (master_history (state w')) p
  = Some (seen_entry now (master_history (state w)) p now)
  /\ active (state w') = false
  /\ ~ In p (paths_to_remove (state w')).
Proof.
  intros Ha Hn. unfold record_view_in_window. rewrite Ha. simpl negb. cbv iota.
  simpl andb. cbv iota.
  destruct (record_seen_step max_entries now window p now w Hn) as [H1 [H2 H3]].
  rewrite H1, H2, H3. auto.
Qed.

Lemma visits_more (n : nat) : forall max_entries window p now w a i,
  active (state w) = false ->
  ~ In p (paths_to_remove (state w)) ->
  dict_get (master_history (state w)) p
  = Some {| added := a; last_seen := now; inserts := i |} ->
  dict_get (master_history (state (visits n max_entries window p now w))) p
  = Some {| added := a; last_seen := now; inserts := i + Z.of_nat n |}.
Proof.
  induction n as [|n IH]; intros max_entries window p now w a i Ha Hn Hg.
  - simpl. rewrite Hg. do 2 f_equal. lia.
  - cbn [visits].
    destruct (visit_step max_entries window p now w Ha Hn) as [H1 [H2 H3]].
    rewrite (IH _ _ _ _ _ a (i + 1) H2 H3).
    + do 2 f_equal. lia.
    + rewrite H1. unfold seen_entry. rewrite Hg. reflexivity.
Qed.

(** X1. Visits to a path that is neither in the store nor pending removal: [k]
    recordings in a row leave an entry with [inserts = k]; it was created
    with [added = last_seen =] the clock and [inserts = 0], and every
    recording set [last_seen] to the time of the visit and added exactly one
    to [inserts]. *)
Theorem visits_counted (k : nat) (max_entries window : Z) (p : string)
  (now : Z) (w : world) :
  (1 <= k)%nat ->
  active (state w) = false ->
  ~ In p (paths_to_remove (state w)) ->
  dict_get (master_history (state w)) p = None ->
  dict_get (master_history (state (visits k max_entries window p now w))) p
  = Some {| added := now; last_seen := now; inserts := Z.of_nat k |}.
Proof.
  intros Hk Ha Hn Hg. destruct k as [|k]; [lia|].
  cbn [visits].
  destruct (visit_step max_entries window p now w Ha Hn) as [H1 [H2 H3]].
  rewrite (visits_more k _ _ _ _ _ now 1 H2 H3).
  - do 2 f_equal. lia.
  - rewrite H1. unfold seen_entry. rewrite Hg. reflexivity.
Qed.

(** Sixty visits, with the save of the fiftieth on the way. *)
Lemma visits_counted_witness :
  dict_get (master_history (state (visits 60 100 1 "/y" 3000 session_start))) "/y"
  = Some {| added := 3000; last_seen := 3000; inserts := 60 |}.
Proof.
  apply (visits_counted 60 100 1 "/y"%string 3000 session_start).
  - lia.
  - reflexivity.
  - simpl. tauto.
  - reflexivity.
Defined.

(** ** Eviction returns *)

Lemma entry_frecency_returns (e : entry) (now : Z) :
  0 <= inserts e < 2 ^ 53 -> now - last_seen e < 2 ^ 63 ->
  exists s, entry_frecency e now = Ok s.
Proof.
  intros Hi Hl. unfold entry_frecency.
  assert (Ha : 0 < entry_age e now < 2 ^ 63).
  { unfold entry_age. change (2 ^ 63) with 9223372036854775808 in *. lia. }
  destruct (Z.eq_dec (inserts e) 0) as [H0|H0].
  - rewrite H0. exists (S754_zero false). now apply frecency_zero.
  - destruct (frecency_correct (entry_age e now) (inserts e)) as [m [x [V [H _]]]];
      [lia|exact Ha|].
    eexists. exact H.
Qed.

(** X2. For visit counts from 0 up to [2^53] and ages below [2^63] seconds no
    score raises, and [limit_entries] returns a store. *)
Theorem limit_entries_returns (entries : history) (n now : Z) :
  Forall (fun x => 0 <= inserts (snd x) < 2 ^ 53
                   /\ now - last_seen (snd x) < 2 ^ 63) entries ->
  exists r, limit_entries entries n now = Ok r.
Proof.
  intros H. unfold limit_entries, sorted_reverse, with_keys.
  assert (Hk : exists ks,
             mapM (fun a : string * entry =>
                     k <- entry_frecency (snd a) now ;; Ok (k, a)) entries
             = Ok ks).
  { induction H as [|x l [Hx1 Hx2] Hl IH]; simpl.
    - eexists. reflexivity.
    - destruct (entry_frecency_returns (snd x) now Hx1 Hx2) as [s Hs].
      destruct IH as [ks Hks].
      rewrite Hs. simpl. rewrite Hks. simpl. eexists. reflexivity. }
  destruct Hk as [ks Hks]. rewrite Hks. simpl. eexists. reflexivity.
Qed.

(** The two entries of the eviction example. *)
Lemma limit_entries_returns_witness :
  exists r, limit_entries two_entries 1 2000 = Ok r.
Proof.
  apply limit_entries_returns.
  repeat constructor; simpl; vm_compute; congruence.
Defined.

(** ** Scores are never NaN *)

Lemma int_truediv_not_infinity a b q :
  PyFloat.int_truediv a b = Ok q -> forall s, q <> S754_infinity s.
Proof.
  unfold PyFloat.int_truediv. destruct (b =? 0); [discriminate|].
  destruct (SFdiv _ _ _ _); intros H s'; inversion H; subst; discriminate.
Qed.



(** ** More on merge and load *)

(** X4. Merge is a superset: a path of either history has an entry in the
    merged history. *)
Theorem merge_histories_superset (A B : history) (path : string) :
  dict_wf B ->
  dict_get A path <> None \/ dict_get B path <> None ->
  dict_get (merge_histories A B) path <> None.
Proof.
  intros HB H. rewrite (merge_histories_get A B path HB).
  destruct (dict_get B path), (dict_get A path); try discriminate.
  destruct H; congruence.
Qed.

(** The scenario again: /a is in both, so it is in the merge. *)
Lemma merge_histories_superset_witness :
  dict_get (merge_histories stored_a in_memory_a) "/a" <> None.
Proof.
  apply (merge_histories_superset stored_a in_memory_a "/a"%string).
  - repeat constructor. simpl. tauto.
  - left. discriminate.
Defined.

(** The scenario through the load: with /a (1000, 1000, 1) on disk and
    /a (1000, 2000, 3) in memory, the master history after the load holds
    /a (1000, 2000, 3). *)
Example load_scenario :
  load_master_history_from_file
    {| state := set_master initial_state in_memory_a; disk := Stored stored_a |}
  = ({| state := set_master initial_state in_memory_a; disk := Stored stored_a |},
     Returned).
Proof. reflexivity. Qed.

(** * More properties *)

(** ** Dicts as maps *)

Section DictMaps.
Context {V : Type}.
Implicit Types (d o : dict V) (k : string) (v : V).

Lemma keys_dict_set_mem d k v e :
  dict_get d k = Some e -> keys (dict_set d k v) = keys d.
Proof.
  induction d as [|[k0 v0] d IH]; simpl; [discriminate|].
  destruct (String.eqb k k0) eqn:E; simpl; intros H.
  - reflexivity.
  - now rewrite IH.
Qed.

Lemma keys_dict_set_new d k v :
  dict_get d k = None -> keys (dict_set d k v) = keys d ++ [k].
Proof.
  induction d as [|[k0 v0] d IH]; simpl; [reflexivity|].
  destruct (String.eqb k k0) eqn:E; simpl; intros H; [discriminate|].
  now rewrite IH.
Qed.

Lemma dict_get_some_in d k : dict_get d k <> None <-> In k (keys d).
Proof.
  induction d as [|[k0 v0] d IH]; simpl.
  - split; [congruence|tauto].
  - destruct (String.eqb k k0) eqn:E.
    + apply String.eqb_eq in E. subst. split; [auto|discriminate].
    + apply String.eqb_neq in E. rewrite IH. split; [auto|].
      intros [H|H]; [congruence|exact H].
Qed.

Lemma dict_get_none_iff d k : dict_get d k = None <-> ~ In k (keys d).
Proof.
  rewrite <- dict_get_some_in. destruct (dict_get d k); split; try congruence.
  intros H. exfalso. apply H. discriminate.
Qed.

Lemma dict_set_wf d k v : dict_wf d -> dict_wf (dict_set d k v).
Proof.
  unfold dict_wf. intros H.
  destruct (dict_get d k) as [e|] eqn:E.
  - now rewrite (keys_dict_set_mem d k v e E).
  - rewrite (keys_dict_set_new d k v E).
    apply NoDup_app; [exact H | repeat constructor; simpl; tauto |].
    intros x Hx [<-|[]]. now apply dict_get_none_iff in E.
Qed.

Lemma dict_update_wf d o : dict_wf d -> dict_wf (dict_update d o).
Proof.
  unfold dict_update. revert d.
  induction o as [|[k v] o IH]; intros d H; simpl; auto using dict_set_wf.
Qed.

Lemma dict_get_update d o k :
  dict_wf o ->
  dict_get (dict_update d o) k
  = match dict_get o k with
    | Some v => Some v
    | None => dict_get d k
    end.
Proof.
  unfold dict_update, dict_wf. revert d.
  induction o as [|[k0 v0] o IH]; intros d Hwf; simpl; [reflexivity|].
  inversion Hwf as [|? ? Hk Hwf']; subst.
  rewrite (IH _ Hwf').
  destruct (String.eqb k k0) eqn:E.
  - apply String.eqb_eq in E; subst k0.
    rewrite (dict_get_none o k Hk). apply dict_get_set_same.
  - apply String.eqb_neq in E.
    destruct (dict_get o k); [reflexivity|].
    apply dict_get_set_other. congruence.
Qed.

Lemma dict_get_in_pair d k v : dict_wf d -> In (k, v) d -> dict_get d k = Some v.
Proof.
  unfold dict_wf. induction d as [|[k0 v0] d IH]; simpl; intros Hwf Hin;
    [destruct Hin|]. destruct Hin as [H|H].
  - inversion H; subst. now rewrite String.eqb_refl.
  - inversion Hwf as [|? ? Hk Hwf']; subst.
    destruct (String.eqb k k0) eqn:E.
    + apply String.eqb_eq in E; subst k0. exfalso. apply Hk.
      change k with (fst (k, v)). now apply in_map.
    + now apply IH.
Qed.

Lemma dict_get_pair_in d k v : dict_get d k = Some v -> In (k, v) d.
Proof.
  induction d as [|[k0 v0] d IH]; simpl; [discriminate|].
  destruct (String.eqb k k0) eqn:E; intros H.
  - apply String.eqb_eq in E. inversion H; subst. now left.
  - right. now apply IH.
Qed.

(** Setting a key to the value it has changes nothing. *)
Lemma dict_set_same d k v : dict_get d k = Some v -> dict_set d k v = d.
Proof.
  induction d as [|[k0 v0] d IH]; simpl; [discriminate|].
  destruct (String.eqb k k0) eqn:E; intros H.
  - apply String.eqb_eq in E. inversion H; subst. reflexivity.
  - now rewrite IH.
Qed.

Lemma dict_update_same d o :
  (forall k v, In (k, v) o -> dict_get d k = Some v) -> dict_update d o = d.
Proof.
  unfold dict_update.
  induction o as [|[k v] o IH]; intros H; simpl; [reflexivity|].
  rewrite (dict_set_same d k v) by (apply H; now left).
  apply IH. intros k' v' Hin. apply H. now right.
Qed.

Lemma dict_pop_wf d k : dict_wf d -> dict_wf (dict_pop d k).
Proof.
  unfold dict_wf. induction d as [|[k0 v0] d IH]; simpl; intros H; auto.
  inversion H as [|? ? Hk H']; subst.
  destruct (String.eqb k k0); simpl; [exact H'|].
  constructor; [|now apply IH].
  intros Hin. apply Hk. clear - Hin.
  induction d as [|[k1 v1] d IH]; simpl in *; [tauto|].
  destruct (String.eqb k k1); simpl in *; [now right|].
  destruct Hin; [now left|right; auto].
Qed.

Lemma dict_get_pop_same d k : dict_wf d -> dict_get (dict_pop d k) k = None.
Proof.
  unfold dict_wf. induction d as [|[k0 v0] d IH]; simpl; intros H; auto.
  inversion H as [|? ? Hk H']; subst.
  destruct (String.eqb k k0) eqn:E; simpl.
  - apply String.eqb_eq in E; subst k0. now apply dict_get_none.
  - rewrite E. now apply IH.
Qed.

End DictMaps.

(** ** Merge keeps order and shape *)

Lemma merge_step_wf (d : history) (x : string * entry) :
  dict_wf d -> dict_wf (merge_step d x).
Proof.
  destruct x as [k e]. unfold merge_step.
  destruct (dict_get d k); apply dict_set_wf.
Qed.

Lemma merge_histories_wf (A B : history) :
  dict_wf A -> dict_wf (merge_histories A B).
Proof.
  unfold merge_histories. revert A.
  induction B as [|x B IH]; intros A H; simpl; auto using merge_step_wf.
Qed.

(** X5. Merging keeps the mergee's paths in their order and appends the
    paths that only the merger has, in the merger's order. *)
Theorem merge_histories_keys (A B : history) :
  dict_wf B ->
  keys (merge_histories A B) = keys A ++ filter (absent A) (keys B).
Proof.
  unfold merge_histories, dict_wf. revert A.
  induction B as [|[k e] B IH]; intros A Hwf.
  - simpl. now rewrite app_nil_r.
  - inversion Hwf as [|? ? Hk Hwf']; subst.
    cbn [fold_left]. change (keys ((k, e) :: B)) with (k :: keys B).
    cbn [filter].
    rewrite (IH _ Hwf').
    assert (Hext : forall A', (forall k', k' <> k -> dict_get A' k' = dict_get A k') ->
                         filter (absent A') (keys B) = filter (absent A) (keys B)).
    { intros A' HA'. apply filter_ext_in. intros k' Hin. unfold absent.
      rewrite HA'; [reflexivity|]. intros ->. now apply Hk. }
    unfold merge_step.
    destruct (dict_get A k) as [a|] eqn:Ea.
    + replace (absent A k) with false by (unfold absent; now rewrite Ea).
      rewrite (keys_dict_set_mem A k _ a Ea).
      f_equal. apply Hext. intros k' Hne. apply dict_get_set_other. congruence.
    + replace (absent A k) with true by (unfold absent; now rewrite Ea).
      rewrite (keys_dict_set_new A k _ Ea), <- app_assoc. simpl.
      do 2 f_equal. apply Hext. intros k' Hne.
      apply dict_get_set_other. congruence.
Qed.

Lemma merge_histories_keys_witness :
  keys (merge_histories stored_a two_entries) = ["/a"%string; "/b"%string].
Proof.
  rewrite (merge_histories_keys stored_a two_entries).
  - reflexivity.
  - unfold dict_wf, two_entries, keys; simpl.
    repeat constructor; simpl; intuition discriminate.
Defined.

Lemma filter_none {A : Type} (f : A -> bool) (l : list A) :
  (forall x, In x l -> f x = false) -> filter f l = [].
Proof.
  induction l as [|x l IH]; simpl; intros H; auto.
  rewrite (H x) by now left. apply IH. intros y Hy. apply H. now right.
Qed.

Lemma dict_update_keys {V : Type} (o d : dict V) :
  dict_wf o ->
  keys (dict_update d o) = keys d ++ filter (absent d) (keys o).
Proof.
  unfold dict_update, dict_wf. revert d.
  induction o as [|[k v] o IH]; intros d Hwf.
  - simpl. now rewrite app_nil_r.
  - inversion Hwf as [|? ? Hk Hwf']; subst.
    cbn [fold_left fst snd]. change (keys ((k, v) :: o)) with (k :: keys o).
    cbn [filter].
    rewrite (IH _ Hwf').
    assert (Hext : forall d', (forall k', k' <> k -> dict_get d' k' = dict_get d k') ->
                         filter (absent d') (keys o) = filter (absent d) (keys o)).
    { intros d' Hd'. apply filter_ext_in. intros k' Hin. unfold absent.
      rewrite Hd'; [reflexivity|]. intros ->. now apply Hk. }
    destruct (dict_get d k) as [a|] eqn:Ea.
    + replace (absent d k) with false by (unfold absent; now rewrite Ea).
      rewrite (keys_dict_set_mem d k _ a Ea).
      f_equal. apply Hext. intros k' Hne. apply dict_get_set_other. congruence.
    + replace (absent d k) with true by (unfold absent; now rewrite Ea).
      rewrite (keys_dict_set_new d k _ Ea), <- app_assoc. simpl.
      do 2 f_equal. apply Hext. intros k' Hne.
      apply dict_get_set_other. congruence.
Qed.

(** ** Load *)

Lemma load_master (w : world) (stored : history) :
  disk w = Stored stored ->
  load_master_history_from_file w
  = ({| state := set_master (state w)
                   (dict_update (master_history (state w))
                      (merge_histories stored (master_history (state w))));
        disk := disk w |}, Returned).
Proof. intros H. unfold load_master_history_from_file. now rewrite H. Qed.

Lemma loaded_lookup (stored master : history) (p : string) :
  dict_wf stored -> dict_wf master ->
  dict_get (dict_update master (merge_histories stored master)) p
  = loaded_entry (dict_get stored p) (dict_get master p).
Proof.
  intros Hs Hm.
  rewrite dict_get_update by now apply merge_histories_wf.
  rewrite (merge_histories_get stored master p Hm).
  unfold loaded_entry.
  destruct (dict_get master p), (dict_get stored p); reflexivity.
Qed.

(** X6. A load that finds a stored history returns normally; afterwards the
    master history holds, for every path, the merge of the stored and the
    in-memory entry (so no in-memory path is lost and every stored path is
    there), the in-memory paths keep their order with the new paths after
    them, and the file, the window histories, the panel flag, the pending
    removals and the save cycle are as before. *)
Theorem load_merges (w : world) (stored : history) :
  disk w = Stored stored ->
  dict_wf stored -> dict_wf (master_history (state w)) ->
  let w' := fst (load_master_history_from_file w) in
  snd (load_master_history_from_file w) = Returned
  /\ (forall p, dict_get (master_history (state w')) p
                = loaded_entry (dict_get stored p)
                    (dict_get (master_history (state w)) p))
  /\ keys (master_history (state w'))
     = keys (master_history (state w))
         ++ filter (absent (master_history (state w))) (keys stored)
  /\ disk w' = disk w
  /\ window_histories (state w') = window_histories (state w)
  /\ active (state w') = active (state w)
  /\ paths_to_remove (state w') = paths_to_remove (state w)
  /\ save_cycle (state w') = save_cycle (state w).
Proof.
  intros Hd Hs Hm. rewrite (load_master w stored Hd). cbn [fst snd state disk
    master_history window_histories active paths_to_remove save_cycle set_master].
  split; [reflexivity|]. split; [intros p; now apply loaded_lookup|].
  split; [|repeat split].
  set (master := master_history (state w)) in *.
  pose proof (merge_histories_keys stored master Hm) as Hk.
  pose proof (merge_histories_wf stored master Hs) as Hwf.
  set (merged := merge_histories stored master) in *.
  rewrite (dict_update_keys merged master Hwf). f_equal.
  rewrite Hk, filter_app.
  rewrite (filter_none (absent master) (filter (absent stored) (keys master))).
  - now rewrite app_nil_r.
  - intros k Hin. apply filter_In in Hin. destruct Hin as [Hin _].
    apply dict_get_some_in in Hin. unfold absent.
    destruct (dict_get master k); congruence.
Qed.

(** The load of the scenario, with one more path on disk. *)
Lemma load_merges_witness :
  dict_get (master_history
              (state (fst (load_master_history_from_file memory_a_disk_ab)))) "/b"
  = Some {| added := 500; last_seen := 600; inserts := 2 |}.
Proof.
  destruct (load_merges memory_a_disk_ab
              (stored_a ++ [("/b"%string,
                             {| added := 500; last_seen := 600; inserts := 2 |})])
              eq_refl) as [_ [H _]].
  - unfold dict_wf, keys; simpl. repeat constructor; simpl; intuition discriminate.
  - unfold dict_wf, keys; simpl. repeat constructor; simpl; intuition discriminate.
  - rewrite H. reflexivity.
Defined.

Lemma merge_entry_absorbs (a b : entry) :
  merge_entry a (merge_entry a b) = merge_entry a b.
Proof. unfold merge_entry. simpl. f_equal; lia. Qed.

Lemma merge_entry_self (a : entry) : merge_entry a a = a.
Proof. destruct a. unfold merge_entry. simpl. f_equal; lia. Qed.

(** X7. Loading is idempotent: a second load of the same file changes
    nothing that the first has left. *)
Theorem load_idempotent (w : world) (stored : history) :
  disk w = Stored stored ->
  dict_wf stored -> dict_wf (master_history (state w)) ->
  fst (load_master_history_from_file (fst (load_master_history_from_file w)))
  = fst (load_master_history_from_file w).
Proof.
  intros Hd Hs Hm. rewrite (load_master w stored Hd). cbn [fst].
  set (master := master_history (state w)) in *.
  set (m1 := dict_update master (merge_histories stored master)).
  assert (Hm1 : dict_wf m1) by now apply dict_update_wf.
  rewrite (load_master _ stored) by (cbn [disk]; exact Hd).
  cbn [fst state disk master_history set_master window_histories active
         paths_to_remove save_cycle].
  rewrite (dict_update_same m1 (merge_histories stored m1)); [reflexivity|].
  intros k v Hin.
  apply dict_get_in_pair in Hin; [|now apply merge_histories_wf].
  rewrite (merge_histories_get stored m1 k Hm1) in Hin.
  unfold m1 in *. rewrite loaded_lookup in * by assumption.
  unfold loaded_entry in *.
  destruct (dict_get stored k) as [a|], (dict_get master k) as [b|];
    try discriminate; inversion Hin; subst;
    rewrite ?merge_entry_absorbs, ?merge_entry_self; reflexivity.
Qed.

Lemma load_idempotent_witness :
  fst (load_master_history_from_file
         (fst (load_master_history_from_file memory_a_disk_ab)))
  = fst (load_master_history_from_file memory_a_disk_ab).
Proof.
  apply (load_idempotent memory_a_disk_ab
           (stored_a ++ [("/b"%string,
                          {| added := 500; last_seen := 600; inserts := 2 |})])).
  - reflexivity.
  - unfold dict_wf, keys; simpl. repeat constructor; simpl; intuition discriminate.
  - unfold dict_wf, keys; simpl. repeat constructor; simpl; intuition discriminate.
Defined.

(** ** Pending removals *)

Lemma pending_in (st : global_state) (p : string) :
  pending st p = true <-> In p (paths_to_remove st).
Proof.
  unfold pending. rewrite existsb_exists. split.
  - intros [x [Hx E]]. apply String.eqb_eq in E. now subst.
  - intros H. exists p. split; [exact H|apply String.eqb_refl].
Qed.

Lemma pending_not_in (st : global_state) (p : string) :
  pending st p = false <-> ~ In p (paths_to_remove st).
Proof.
  rewrite <- pending_in. destruct (pending st p); split; congruence.
Qed.

Lemma dict_pop_absent {V : Type} (d : dict V) (k : string) :
  dict_get d k = None -> dict_pop d k = d.
Proof.
  induction d as [|[k0 v0] d IH]; simpl; auto.
  destruct (String.eqb k k0); [discriminate|].
  intros H. now rewrite IH.
Qed.

Lemma window_get_map (g : history -> history) (ws : list (Z * history)) (id : Z) :
  g [] = [] ->
  window_get (map (fun w => (fst w, g (snd w))) ws) id = g (window_get ws id).
Proof.
  intros Hg. induction ws as [|[id' h] ws IH]; simpl; auto.
  destruct (id =? id'); auto.
Qed.

Lemma remove_path_wf (st : global_state) (q : string) :
  state_wf st -> state_wf (remove_path st q).
Proof.
  intros [Hm Hw]. split; simpl.
  - now apply dict_pop_wf.
  - rewrite Forall_map. simpl.
    eapply Forall_impl; [|exact Hw]. intros w H. now apply dict_pop_wf.
Qed.

Lemma remove_paths_wf (ps : list string) (st : global_state) :
  state_wf st -> state_wf (fold_left remove_path ps st).
Proof.
  revert st. induction ps as [|q ps IH]; intros st H; simpl; auto.
  apply IH. now apply remove_path_wf.
Qed.

Lemma remove_paths_lookup (ps : list string) : forall (st : global_state) (p : string) (id : Z),
  state_wf st ->
  let st' := fold_left remove_path ps st in
  dict_get (master_history st') p
  = (if existsb (String.eqb p) ps then None else dict_get (master_history st) p)
  /\ dict_get (window_get (window_histories st') id) p
     = (if existsb (String.eqb p) ps then None
        else dict_get (window_get (window_histories st) id) p).
Proof.
  induction ps as [|q ps IH]; intros st p id Hwf; simpl.
  - split; reflexivity.
  - destruct (IH (remove_path st q) p id (remove_path_wf st q Hwf)) as [H1 H2].
    rewrite H1, H2. clear H1 H2. simpl.
    rewrite (window_get_map (fun h => dict_pop h q)) by reflexivity.
    destruct Hwf as [Hm Hw].
    assert (Hwid : dict_wf (window_get (window_histories st) id)).
    { clear - Hw. induction Hw as [|[id' h] ws Hh Hws IH]; simpl.
      - constructor.
      - destruct (id =? id'); auto. }
    destruct (String.eqb p q) eqn:E; simpl.
    + apply String.eqb_eq in E; subst q.
      rewrite !dict_get_pop_same by assumption.
      destruct (existsb _ ps); split; reflexivity.
    + apply String.eqb_neq in E.
      rewrite !dict_get_pop_other by congruence.
      split; reflexivity.
Qed.

Lemma remove_paths_fields (ps : list string) (st : global_state) :
  paths_to_remove (fold_left remove_path ps st) = paths_to_remove st
  /\ active (fold_left remove_path ps st) = active st
  /\ save_cycle (fold_left remove_path ps st) = save_cycle st.
Proof.
  revert st. induction ps as [|q ps IH]; intros st; simpl.
  - repeat split.
  - destruct (IH (remove_path st q)) as [E1 [E2 E3]].
    rewrite E1, E2, E3. repeat split.
Qed.

(** X8. [remove_paths_to_remove] removes exactly the pending paths: after
    it no pending path has an entry in the master history or in any window
    history, every other path has the entry it had, and the set of pending
    paths, the panel flag and the save cycle are as before. *)
Theorem remove_paths_to_remove_exact (st : global_state) (p : string) (id : Z) :
  state_wf st ->
  let st' := remove_paths_to_remove st in
  dict_get (master_history st') p
  = (if pending st p then None else dict_get (master_history st) p)
  /\ dict_get (window_get (window_histories st') id) p
     = (if pending st p then None
        else dict_get (window_get (window_histories st) id) p)
  /\ paths_to_remove st' = paths_to_remove st
  /\ active st' = active st
  /\ save_cycle st' = save_cycle st.
Proof.
  intros Hwf. unfold remove_paths_to_remove, pending.
  destruct (remove_paths_lookup (paths_to_remove st) st p id Hwf) as [H1 H2].
  split; [exact H1|]. split; [exact H2|].
  apply remove_paths_fields.
Qed.

Lemma two_entries_wf : dict_wf two_entries.
Proof.
  unfold dict_wf, two_entries, keys; simpl.
  repeat constructor; simpl; intuition discriminate.
Qed.

Lemma two_entries_b_pending_wf : state_wf two_entries_b_pending.
Proof.
  split; simpl; [exact two_entries_wf|].
  constructor; [exact two_entries_wf|constructor].
Qed.

(** /b goes from the master history. *)
Lemma remove_paths_to_remove_exact_witness :
  dict_get (master_history (remove_paths_to_remove two_entries_b_pending)) "/b"
  = None.
Proof.
  rewrite (proj1 (remove_paths_to_remove_exact two_entries_b_pending
                    "/b"%string 1 two_entries_b_pending_wf)).
  reflexivity.
Defined.

(** ** Save, then load *)

Lemma dict_get_perm {V : Type} (d d' : dict V) (k : string) :
  dict_wf d -> Permutation d d' -> dict_get d k = dict_get d' k.
Proof.
  intros Hwf Hp.
  assert (Hwf' : dict_wf d').
  { unfold dict_wf, keys in *. eapply Permutation_NoDup; [|exact Hwf].
    now apply Permutation_map. }
  destruct (dict_get d k) as [v|] eqn:E.
  - symmetry. apply dict_get_in_pair; [exact Hwf'|].
    eapply Permutation_in; [exact Hp|]. now apply dict_get_pair_in.
  - destruct (dict_get d' k) as [v'|] eqn:E'; [|reflexivity].
    apply dict_get_pair_in in E'.
    apply Permutation_sym in Hp.
    apply (Permutation_in _ Hp) in E'.
    apply (dict_get_in_pair _ _ _ Hwf) in E'. congruence.
Qed.

Lemma limit_entries_sub (entries : history) (n now : Z) (r : history) p e :
  dict_wf entries -> 0 <= n ->
  limit_entries entries n now = Ok r ->
  dict_get r p = Some e -> dict_get entries p = Some e.
Proof.
  intros Hwf Hn H Hg.
  destruct (limit_entries_ranked _ _ _ _ Hwf Hn H) as [l [El ->]].
  destruct (with_keys_ok _ _ _ El) as [Hm _].
  apply dict_get_pair_in in Hg.
  apply dict_get_in_pair; [exact Hwf|].
  rewrite <- Hm.
  eapply Permutation_in; [apply Permutation_map, sort_desc_perm|].
  rewrite <- (firstn_skipn (Z.to_nat n) (sort_desc l)), map_app.
  apply in_or_app. now left.
Qed.

Lemma limit_entries_all (entries : history) (n now : Z) (r : history) :
  dict_wf entries -> len entries <= n ->
  limit_entries entries n now = Ok r -> Permutation r entries.
Proof.
  intros Hwf Hn H.
  assert (Hn0 : 0 <= n) by (pose proof (len_nonneg entries); lia).
  destruct (limit_entries_ranked _ _ _ _ Hwf Hn0 H) as [l [El ->]].
  destruct (with_keys_ok _ _ _ El) as [Hm _].
  rewrite firstn_all2.
  - rewrite <- Hm. apply Permutation_map, sort_desc_perm.
  - rewrite (Permutation_length (sort_desc_perm l)).
    rewrite <- (length_map snd l), Hm. unfold len in Hn. lia.
Qed.

Lemma json_dump_lookup (h : history) :
  dict_wf h ->
  exists written,
    json_dump h = Stored written /\ dict_wf written
    /\ forall p, dict_get written p = dict_get h p.
Proof.
  intros Hwf. destruct (json_dump_perm h) as [h' [Hh' Hp]].
  exists h'. split; [exact Hh'|].
  assert (Hwf' : dict_wf h').
  { unfold dict_wf, keys in *. eapply Permutation_NoDup; [|exact Hwf].
    apply Permutation_map, Permutation_sym, Hp. }
  split; [exact Hwf'|]. intros p. now apply dict_get_perm.
Qed.

(** X9. What a save writes, a load reads back. When the file can be opened,
    the ranking returns [kept] and the guard lets the write through, the save
    returns normally, and a later load into any session finds for every path
    the merge of the entry of [kept] with the session's own; into a fresh
    session that is the entry of [kept] itself.  Every entry of [kept] is
    an entry of the in-memory history after the pending removals, and when
    the history has no more than [max_entries] entries [kept] has them all. *)
Theorem save_then_load (max_entries now : Z) (w : world) (kept : history)
  (session : global_state) :
  disk w <> Unreadable ->
  state_wf (state w) ->
  dict_wf (master_history session) ->
  0 <= max_entries ->
  limit_entries (master_history (remove_paths_to_remove (state w)))
    max_entries now = Ok kept ->
  enough_entries (len kept) (len (stored_entries (disk w))) = true ->
  let memory := master_history (remove_paths_to_remove (state w)) in
  let saved := save_master_history_to_file max_entries now w in
  let loaded :=
    load_master_history_from_file
      {| state := session; disk := disk (fst saved) |} in
  snd saved = Returned
  /\ snd loaded = Returned
  /\ (forall p, dict_get (master_history (state (fst loaded))) p
                = loaded_entry (dict_get kept p)
                    (dict_get (master_history session) p))
  /\ (master_history session = [] ->
      forall p, dict_get (master_history (state (fst loaded))) p
                = dict_get kept p)
  /\ (forall p e, dict_get kept p = Some e -> dict_get memory p = Some e)
  /\ (len memory <= max_entries ->
      forall p, dict_get kept p = dict_get memory p).
Proof.
  intros Hd Hwf Hs Hmax Hl Hg. cbv zeta.
  assert (Hmem : dict_wf (master_history (remove_paths_to_remove (state w)))).
  { apply remove_paths_wf, Hwf. }
  pose proof (limit_entries_wf _ _ _ _ Hmem Hmax Hl) as Hk.
  destruct (json_dump_lookup kept Hk) as [written [Hw [Hww Hwl]]].
  assert (Hsave : save_master_history_to_file max_entries now w
                  = ({| state := remove_paths_to_remove (state w);
                        disk := Stored written |}, Returned)).
  { unfold save_master_history_to_file.
    destruct (disk w) as [| | |stored]; try congruence;
      rewrite Hl; simpl in Hg; rewrite Hg, Hw; reflexivity. }
  rewrite Hsave. cbn [fst snd disk].
  rewrite (load_master {| state := session; disk := Stored written |}
             written eq_refl).
  cbn [fst snd state disk master_history set_master].
  assert (Hlook : forall p,
             dict_get (dict_update (master_history session)
                         (merge_histories written (master_history session))) p
             = loaded_entry (dict_get kept p)
                 (dict_get (master_history session) p)).
  { intros p. rewrite loaded_lookup by assumption. now rewrite Hwl. }
  split; [reflexivity|]. split; [reflexivity|].
  split; [exact Hlook|].
  split.
  { intros He p. rewrite Hlook, He. simpl.
    unfold loaded_entry. now destruct (dict_get kept p). }
  split.
  { intros p e. now apply (limit_entries_sub _ max_entries now kept). }
  intros Hlen p. apply dict_get_perm; [exact Hk|].
  now apply (limit_entries_all _ max_entries now).
Qed.

(** /a and /b are saved over a store with /a and read back in a new session. *)
Lemma save_then_load_witness :
  dict_get
    (master_history
       (state (fst (load_master_history_from_file
                      {| state := initial_state;
                         disk := disk (fst (save_master_history_to_file 100 2000
                                              memory_ab_disk_a)) |})))) "/b"
  = Some {| added := 1000; last_seen := 1000; inserts := 1 |}.
Proof.
  destruct (save_then_load 100 2000 memory_ab_disk_a
              [("/a"%string, {| added := 1000; last_seen := 1000; inserts := 3 |});
               ("/b"%string, {| added := 1000; last_seen := 1000; inserts := 1 |})]
              initial_state) as [_ [_ [_ [H _]]]].
  - simpl. discriminate.
  - split; simpl; [exact two_entries_wf|constructor].
  - simpl. constructor.
  - lia.
  - vm_compute. reflexivity.
  - vm_compute. reflexivity.
  - rewrite (H eq_refl). reflexivity.
Defined.

(** X10. An empty history is never written. If nothing is left in memory
    after the pending removals (and the file has fewer than [2^49] entries),
    the save returns normally and leaves a stored file as it is; a missing
    file has been created empty by then and stays so, and the next load of
    it raises [JSONDecodeError]. *)
Theorem save_empty_history (max_entries now : Z) (w : world) :
  master_history (remove_paths_to_remove (state w)) = [] ->
  disk w <> Unreadable ->
  len (stored_entries (disk w)) < 2 ^ 49 ->
  save_master_history_to_file max_entries now w
  = ({| state := remove_paths_to_remove (state w);
        disk := match disk w with NoFile => NotJson | d => d end |}, Returned)
  /\ (disk w = NoFile ->
      forall session,
        snd (load_master_history_from_file
               {| state := session;
                  disk := disk (fst (save_master_history_to_file
                                        max_entries now w)) |})
        = Raised JSONDecodeError).
Proof.
  intros He Hd Hn.
  assert (Hl : limit_entries [] max_entries now = Ok []).
  { unfold limit_entries, sorted_reverse, with_keys, slice_to. simpl.
    destruct (max_entries <? 0); simpl; rewrite ?firstn_nil; reflexivity. }
  assert (Hg : enough_entries 0 (len (stored_entries (disk w))) = false).
  { destruct (Z.eq_dec (len (stored_entries (disk w))) 0) as [->|Hne].
    - reflexivity.
    - apply (enough_entries_spec 0 (len (stored_entries (disk w))));
        pose proof (len_nonneg (stored_entries (disk w))); lia. }
  assert (Hsave : save_master_history_to_file max_entries now w
                  = ({| state := remove_paths_to_remove (state w);
                        disk := match disk w with NoFile => NotJson | d => d end |},
                     Returned)).
  { unfold save_master_history_to_file. rewrite He, Hl.
    destruct (disk w) as [| | |stored]; try congruence;
      cbv beta iota zeta; cbn [stored_entries] in Hg;
      match goal with
      | |- context [enough_entries ?a ?b] =>
          change (enough_entries a b) with (enough_entries 0 b)
      end;
      rewrite Hg; reflexivity. }
  split; [exact Hsave|].
  intros Hno session. rewrite Hsave, Hno. reflexivity.
Qed.

Lemma save_empty_history_witness :
  save_master_history_to_file 100 2000 nothing_anywhere
  = ({| state := initial_state; disk := NotJson |}, Returned).
Proof.
  refine (proj1 (save_empty_history 100 2000 nothing_anywhere _ _ _)).
  - reflexivity.
  - simpl. discriminate.
  - vm_compute. reflexivity.
Defined.

(** ** The save cycle *)

Lemma record_one_quiet (max_entries : Z) (w : world) (r : recording) :
  0 <= save_cycle (state w) -> save_cycle (state w) + 1 < SAVE_EVERY ->
  disk (record_one max_entries w r) = disk w
  /\ save_cycle (state (record_one max_entries w r)) = save_cycle (state w) + 1.
Proof.
  intros H0 H1. unfold record_one, record_seen_path_in_window, next_save_cycle.
  change (save_cycle (seen_state (r_clock r) (r_window r) (r_path r) (r_now r)
                        (state w))) with (save_cycle (state w)).
  rewrite Z.mod_small by lia.
  destruct (Z.eqb_spec (save_cycle (state w) + 1) 0) as [E|E]; [lia|].
  split; reflexivity.
Qed.

Lemma recordings_quiet (max_entries : Z) (rs : list recording) :
  forall w,
    0 <= save_cycle (state w) ->
    save_cycle (state w) + len rs < SAVE_EVERY ->
    disk (recordings max_entries rs w) = disk w
    /\ save_cycle (state (recordings max_entries rs w))
       = save_cycle (state w) + len rs.
Proof.
  unfold recordings, len.
  induction rs as [|r rs IH]; intros w H0 H1;
    cbn [fold_left List.length] in H1 |- *.
  - split; [reflexivity|]. simpl. lia.
  - destruct (record_one_quiet max_entries w r H0) as [Hd Hc].
    { rewrite Nat2Z.inj_succ in H1. lia. }
    destruct (IH (record_one max_entries w r)) as [Hd' Hc'].
    { lia. }
    { rewrite Hc. rewrite Nat2Z.inj_succ in H1. lia. }
    rewrite Hd', Hd, Hc', Hc. split; [reflexivity|].
    rewrite Nat2Z.inj_succ. lia.
Qed.

(** X11. The store file is touched on every fiftieth recording only. From a
    save cycle at [c] the next [49 - c] recordings, whatever their windows,
    paths and times, leave the file as it is, and the recording after them
    is the one that saves: it updates the history and then runs
    [save_master_history_to_file] with the cycle back at 0. *)
Theorem save_every_fiftieth (max_entries : Z) (rs : list recording)
  (r : recording) (w : world) :
  0 <= save_cycle (state w) ->
  save_cycle (state w) + len rs = SAVE_EVERY - 1 ->
  let w' := recordings max_entries rs w in
  disk w' = disk w
  /\ record_seen_path_in_window max_entries (r_clock r) (r_window r)
       (r_path r) (r_now r) w'
     = save_master_history_to_file max_entries (r_now r)
         {| state := set_save_cycle
                       (seen_state (r_clock r) (r_window r) (r_path r)
                          (r_now r) (state w')) 0;
            disk := disk w |}.
Proof.
  intros H0 H1. cbv zeta.
  destruct (recordings_quiet max_entries rs w H0) as [Hd Hc].
  { unfold SAVE_EVERY in *. lia. }
  split; [exact Hd|].
  unfold record_seen_path_in_window, next_save_cycle.
  change (save_cycle (seen_state (r_clock r) (r_window r) (r_path r) (r_now r)
                        (state (recordings max_entries rs w))))
    with (save_cycle (state (recordings max_entries rs w))).
  rewrite Hc, H1, Hd.
  reflexivity.
Qed.

(** Forty-nine recordings of a new session, then the fiftieth. *)
Lemma save_every_fiftieth_witness :
  disk (recordings 100
          (repeat {| r_window := 1; r_path := "/x"; r_now := 1000;
                     r_clock := 1000 |} 49)
          session_start)
  = NoFile.
Proof.
  refine (proj1 (save_every_fiftieth 100
                   (repeat {| r_window := 1; r_path := "/x"%string;
                              r_now := 1000; r_clock := 1000 |} 49)
                   {| r_window := 1; r_path := "/x"%string; r_now := 1000;
                      r_clock := 1000 |}
                   session_start _ _)).
  - simpl. lia.
  - reflexivity.
Defined.

(** ** Eviction keeps the best *)

(** [<] on floats is negatively transitive across anything but NaN. *)
Lemma ltb_negtrans (x y z : PyFloat.float) :
  y <> S754_nan ->
  PyFloat.ltb x y = false -> PyFloat.ltb y z = false ->
  PyFloat.ltb x z = false.
Proof.
  intros Hy. unfold PyFloat.ltb, SFltb, SFcompare.
  destruct x as [sx|sx| |sx mx ex], y as [sy|sy| |sy my ey],
           z as [sz|sz| |sz mz ez];
    try congruence;
    try destruct sx; try destruct sy; try destruct sz;
    try reflexivity; try discriminate;
    change (Pos.compare_cont Eq) with Pos.compare;
    destruct (Z.compare_spec ex ey), (Z.compare_spec ey ez),
             (Z.compare_spec ex ez);
    try reflexivity; try discriminate; try lia; subst;
    destruct (Pos.compare_spec mx my), (Pos.compare_spec my mz),
             (Pos.compare_spec mx mz);
    simpl; try reflexivity; try discriminate; try lia.
Qed.

Lemma score_not_nan (age count : Z) (s : PyFloat.float) :
  frecency age count = Ok s -> s <> S754_nan.
Proof.
  unfold frecency. destruct (PyFloat.int_truediv count age) as [q|] eqn:Eq;
    simpl; [|discriminate].
  intros H. inversion H; subst; clear H.
  pose proof (int_truediv_not_nan _ _ _ Eq) as Hn.
  pose proof (int_truediv_not_infinity _ _ _ Eq) as Hi.
  assert (Hw : exists m e,
             PyFloat.of_int (recency_score age) = S754_finite false m e).
  { destruct (recency_score_cases age)
      as [[_ E]|[[_ E]|[[_ E]|[[_ E]|[_ E]]]]]; rewrite E;
      eexists; eexists; vm_compute; reflexivity. }
  destruct Hw as [m [e Hw]]. rewrite Hw.
  destruct q as [sq|sq| |sq mq eq]; simpl.
  - discriminate.
  - exfalso. now apply (Hi sq).
  - congruence.
  - apply binary_round_aux_not_nan. lia.
Qed.

Section Ranking.
Context {A : Type}.
Implicit Types (l : list (PyFloat.float * A)) (x : PyFloat.float * A).

Lemma descending_head x l :
  Forall (fun y => fst y <> S754_nan) l ->
  descending (x :: l) -> Forall (not_below x) l.
Proof.
  revert x. induction l as [|y l IH]; intros x Hn Hd; constructor.
  - inversion Hd; subst; assumption.
  - inversion Hd as [| |? ? ? Hxy Hyl]; subst.
    inversion Hn as [|? ? Hy Hn']; subst.
    pose proof (IH y Hn' Hyl) as Hall.
    eapply Forall_impl; [|exact Hall].
    intros z Hyz. unfold not_below in *.
    now apply (ltb_negtrans (fst x) (fst y) (fst z)).
Qed.

Lemma descending_split n : forall l,
  Forall (fun y => fst y <> S754_nan) l -> descending l ->
  forall a b, In a (firstn n l) -> In b (skipn n l) -> not_below a b.
Proof.
  induction n as [|n IH]; intros l Hn Hd a b Ha Hb; [destruct Ha|].
  destruct l as [|x l]; [destruct Ha|].
  simpl in Ha, Hb. inversion Hn as [|? ? Hx Hn']; subst.
  destruct Ha as [<-|Ha].
  - pose proof (descending_head x l Hn' Hd) as Hall.
    rewrite Forall_forall in Hall. apply Hall.
    rewrite <- (firstn_skipn n l). apply in_or_app. now right.
  - apply (IH l Hn' (descending_tail _ _ Hd) a b Ha Hb).
Qed.

End Ranking.

(** X12. [limit_entries] keeps the best [n]: for [n >= 0] the result has
    [min n (len entries)] entries, and no entry that it leaves out scores
    higher than one it keeps. *)
Theorem limit_entries_keeps_best (entries : history) (n now : Z) (r : history) :
  dict_wf entries -> 0 <= n ->
  limit_entries entries n now = Ok r ->
  len r = Z.min n (len entries)
  /\ forall p e p' e',
       dict_get r p = Some e ->
       dict_get entries p' = Some e' -> dict_get r p' = None ->
       exists s s',
         entry_frecency e now = Ok s /\ entry_frecency e' now = Ok s'
         /\ PyFloat.ltb s s' = false.
Proof.
  intros Hwf Hn H.
  destruct (limit_entries_ranked _ _ _ _ Hwf Hn H) as [l [El ->]].
  destruct (with_keys_ok _ _ _ El) as [Hm Hk].
  pose proof (sort_desc_perm l) as Hp.
  assert (Hks : keyed (fun x : string * entry => entry_frecency (snd x) now)
                  (sort_desc l)).
  { eapply keyed_perm; [apply Permutation_sym, Hp|exact Hk]. }
  split.
  - unfold len. rewrite length_map, length_firstn.
    rewrite (Permutation_length Hp), <- Hm, length_map. lia.
  - intros p e p' e' Hg Hg' Hnone.
    apply dict_get_pair_in in Hg. apply in_map_iff in Hg.
    destruct Hg as [a [Ea Ha]].
    apply dict_get_pair_in in Hg'. rewrite <- Hm in Hg'.
    apply (Permutation_in _ (Permutation_map snd (Permutation_sym Hp))) in Hg'.
    apply in_map_iff in Hg'. destruct Hg' as [b [Eb Hb]].
    rewrite <- (firstn_skipn (Z.to_nat n) (sort_desc l)) in Hb.
    apply in_app_or in Hb. destruct Hb as [Hb|Hb].
    { exfalso. apply dict_get_none_iff in Hnone. apply Hnone.
      unfold keys. rewrite map_map. apply in_map_iff.
      exists b. rewrite Eb. split; [reflexivity|exact Hb]. }
    unfold keyed in Hks. rewrite Forall_forall in Hks.
    assert (Hain : In a (sort_desc l)).
    { rewrite <- (firstn_skipn (Z.to_nat n) (sort_desc l)).
      apply in_or_app. now left. }
    assert (Hbin : In b (sort_desc l)).
    { rewrite <- (firstn_skipn (Z.to_nat n) (sort_desc l)).
      apply in_or_app. now right. }
    pose proof (Hks a Hain) as Ka. pose proof (Hks b Hbin) as Kb.
    rewrite Ea in Ka. rewrite Eb in Kb. simpl in Ka, Kb.
    exists (fst a), (fst b). split; [exact Ka|]. split; [exact Kb|].
    apply (descending_split (Z.to_nat n) (sort_desc l)); auto.
    + rewrite Forall_forall. intros y Hy.
      pose proof (Hks y Hy) as Ky. simpl in Ky.
      unfold entry_frecency in Ky. now apply score_not_nan in Ky.
    + apply sort_desc_descending.
Qed.

(** Of /a with three visits and /b with one, /a is kept. *)
Lemma limit_entries_keeps_best_witness :
  len [("/a"%string, {| added := 1000; last_seen := 1000; inserts := 3 |})]
  = Z.min 1 (len two_entries).
Proof.
  refine (proj1 (limit_entries_keeps_best two_entries 1 2000 _
                   two_entries_wf _ _)).
  - lia.
  - vm_compute. reflexivity.
Defined.

(** ** Window histories *)

Lemma window_get_set_same (ws : list (Z * history)) (id : Z) (h : history) :
  window_get (window_set ws id h) id = h.
Proof.
  induction ws as [|[id' h'] ws IH]; simpl.
  - now rewrite Z.eqb_refl.
  - destruct (id =? id') eqn:E; simpl; rewrite E; auto.
Qed.

Lemma window_get_set_other (ws : list (Z * history)) (id id' : Z) (h : history) :
  id' <> id -> window_get (window_set ws id h) id' = window_get ws id'.
Proof.
  intros Hne. induction ws as [|[i h'] ws IH]; simpl.
  - apply Z.eqb_neq in Hne. now rewrite Hne.
  - destruct (id =? i) eqn:E; simpl.
    + apply Z.eqb_eq in E. subst i.
      apply Z.eqb_neq in Hne. now rewrite Hne.
    + now rewrite IH.
Qed.

Lemma populate_from_folder_lookup (master : history) (folder : string) :
  forall (wh : history) (p : string),
    dict_wf master ->
    dict_get (populate_from_folder master folder wh) p
    = match dict_get master p with
      | Some e => if String.prefix folder p then Some e else dict_get wh p
      | None => dict_get wh p
      end.
Proof.
  unfold populate_from_folder, dict_wf.
  induction master as [|[k e] master IH]; intros wh p Hwf; [reflexivity|].
  inversion Hwf as [|? ? Hk Hwf']; subst.
  cbn [fold_left fst snd dict_get].
  rewrite (IH _ p Hwf').
  destruct (String.eqb p k) eqn:E.
  - apply String.eqb_eq in E. subst k.
    rewrite (dict_get_none master p Hk).
    destruct (String.prefix folder p); [apply dict_get_set_same|reflexivity].
  - apply String.eqb_neq in E.
    destruct (dict_get master p) as [e'|];
      destruct (String.prefix folder p); try reflexivity;
      destruct (String.prefix folder k); try reflexivity;
      apply dict_get_set_other; congruence.
Qed.

Lemma populate_folders_lookup (master : history) (folders : list string) :
  forall (wh : history) (p : string),
    dict_wf master ->
    dict_get
      (fold_left (fun wh folder => populate_from_folder master folder wh)
         folders wh) p
    = match dict_get master p with
      | Some e => if within_folders folders p then Some e else dict_get wh p
      | None => dict_get wh p
      end.
Proof.
  induction folders as [|f folders IH]; intros wh p Hwf; cbn [fold_left].
  - unfold within_folders. simpl. now destruct (dict_get master p).
  - rewrite (IH _ p Hwf), (populate_from_folder_lookup master f wh p Hwf).
    unfold within_folders. cbn [existsb].
    destruct (dict_get master p) as [e|]; [|reflexivity].
    destruct (String.prefix f p); simpl; [|reflexivity].
    now destruct (existsb _ folders).
Qed.

(** X13. [populate_window_history_from_master] gives the window the master
    entry of every path that lies under one of the window's folders, and
    nothing else: any other path keeps what the window had for it, and the
    master history, the other windows and the rest of the state are as
    before. *)
Theorem populate_window_history_from_master_lookup (window : Z)
  (window_folders : list string) (st : global_state) :
  dict_wf (master_history st) ->
  let st' := populate_window_history_from_master window window_folders st in
  (forall p,
     dict_get (window_get (window_histories st') window) p
     = match dict_get (master_history st) p with
       | Some e =>
           if within_folders window_folders p then Some e
           else dict_get (window_get (window_histories st) window) p
       | None => dict_get (window_get (window_histories st) window) p
       end)
  /\ (forall id, id <> window ->
        window_get (window_histories st') id
        = window_get (window_histories st) id)
  /\ master_history st' = master_history st
  /\ active st' = active st
  /\ paths_to_remove st' = paths_to_remove st
  /\ save_cycle st' = save_cycle st.
Proof.
  intros Hwf. unfold populate_window_history_from_master.
  cbn [window_histories master_history active paths_to_remove save_cycle
         set_windows].
  split.
  - intros p. rewrite window_get_set_same.
    now apply populate_folders_lookup.
  - split; [|repeat split].
    intros id Hne. now apply window_get_set_other.
Qed.

(** A window on /proj gets /proj/a.py and not /etc/hosts. *)
Lemma populate_window_history_from_master_lookup_witness :
  dict_get
    (window_get
       (window_histories
          (populate_window_history_from_master 1 ["/proj"%string]
             master_proj_etc)) 1) "/etc/hosts"
  = None.
Proof.
  rewrite (proj1 (populate_window_history_from_master_lookup 1
                    ["/proj"%string] master_proj_etc
                    ltac:(unfold dict_wf, keys; simpl;
                          repeat constructor; simpl; intuition discriminate))).
  reflexivity.
Defined.

(** ** The rows of the quick panel *)

(** X14. The filter of the panel: [OPENED] lists the open paths of the
    history, [CLOSED] the paths that are not open, and [BOTH], like a value
    that is no member of the enum, lists every path; all in the order of the
    history.  Each row carries the entry of its path, the score of that
    entry, whether the path is open and whether it lies under a window
    folder, and no score fraction yet. *)
Theorem get_data_list_for_panel_rows (h : history)
  (find_open_file : string -> bool) (window_folders : list string)
  (open_status_filter : OpenStatusFilter) (now : Z) (data : list panel_entry) :
  get_data_list_for_panel h find_open_file window_folders open_status_filter now
    = Ok data ->
  map path data
  = match open_status_filter with
    | OPENED => filter find_open_file (keys h)
    | CLOSED => filter (fun p => negb (find_open_file p)) (keys h)
    | BOTH | Unrecognised => keys h
    end
  /\ Forall (fun a =>
               In (path a, attrs a) h
               /\ entry_frecency (attrs a) now = Ok (score a)
               /\ is_open a = find_open_file (path a)
               /\ is_within_folders a = within_folders window_folders (path a)
               /\ score_frac a = None) data.
Proof.
  revert data. induction h as [|[p a] h IH]; intros data H.
  - simpl in H. inversion H; subst. split; [|constructor].
    now destruct open_status_filter.
  - cbn [get_data_list_for_panel] in H. cbv zeta in H.
    change (keys ((p, a) :: h)) with (p :: keys h). cbn [filter].
    destruct ((find_open_file p && is_closed_filter open_status_filter)
              || (negb (find_open_file p) && is_opened_filter open_status_filter))
      eqn:Eskip.
    + destruct (IH data H) as [Hp Hall]. split.
      * rewrite Hp.
        destruct open_status_filter, (find_open_file p);
          simpl in Eskip; try discriminate; reflexivity.
      * eapply Forall_impl; [|exact Hall].
        intros x [Hin Hrest]. split; [now right|exact Hrest].
    + destruct (entry_frecency a now) as [s|] eqn:Es; simpl in H; [|discriminate].
      destruct (get_data_list_for_panel h find_open_file window_folders
                  open_status_filter now) as [rest|] eqn:Er;
        simpl in H; [|discriminate].
      inversion H; subst; clear H.
      destruct (IH rest eq_refl) as [Hp Hall]. split.
      * cbn [map path]. rewrite Hp.
        destruct open_status_filter, (find_open_file p);
          simpl in Eskip; try discriminate; reflexivity.
      * constructor.
        -- cbn [path attrs score is_open is_within_folders score_frac].
           repeat split; [now left|exact Es].
        -- eapply Forall_impl; [|exact Hall].
           intros x [Hin Hrest]. split; [now right|exact Hrest].
Qed.

Lemma get_data_list_for_panel_rows_witness :
  map path
    [{| path := "/b"; score := S754_finite false 6917529027641082 (-60);
        is_open := true; is_within_folders := false;
        attrs := {| added := 1000; last_seen := 1000; inserts := 1 |};
        score_frac := None |}]
  = filter (String.eqb "/b") (keys two_entries).
Proof.
  refine (proj1 (get_data_list_for_panel_rows two_entries (String.eqb "/b") []
                   OPENED 2000 _ _)).
  vm_compute. reflexivity.
Defined.





(** ** Closing the panel *)

Lemma historied_path_exists_pending (p : string) (path_exists : bool)
  (st : global_state) (q : string) :
  let st1 := snd (historied_path_exists p path_exists st) in
  master_history st1 = master_history st
  /\ window_histories st1 = window_histories st
  /\ active st1 = active st
  /\ save_cycle st1 = save_cycle st
  /\ pending st1 q
     = (pending st q || (negb path_exists && String.eqb q p))%bool.
Proof.
  unfold historied_path_exists, pending. destruct path_exists; simpl.
  - repeat split. now rewrite orb_false_r.
  - destruct (existsb (String.eqb p) (paths_to_remove st)) eqn:E; simpl.
    + repeat split.
      destruct (String.eqb q p) eqn:Eq; [|now rewrite orb_false_r].
      apply String.eqb_eq in Eq. subst q. now rewrite E.
    + repeat split. rewrite existsb_app. simpl. now rewrite orb_false_r.
Qed.

(** [open_file] is a removal of the pending paths, after the selected path
    has been looked for. *)
Lemma open_file_as_removal (rows : list string) (idx : Z) (path_exists : bool)
  (st : global_state) :
  exists st1,
    open_file rows idx path_exists st = remove_paths_to_remove st1
    /\ master_history st1 = master_history st
    /\ window_histories st1 = window_histories st
    /\ active st1 = false
    /\ save_cycle st1 = save_cycle st
    /\ forall q,
         pending st1 q
         = (pending st q
            || (negb (idx <? 0) && negb path_exists
                && match nth_error rows (Z.to_nat idx) with
                   | Some p => String.eqb q p
                   | None => false
                   end))%bool.
Proof.
  unfold open_file.
  destruct (idx <? 0) eqn:Ei.
  - exists (set_active st false). repeat split.
    intros q. simpl. now rewrite orb_false_r.
  - destruct (nth_error rows (Z.to_nat idx)) as [p|] eqn:En.
    + exists (snd (historied_path_exists p path_exists (set_active st false))).
      split; [reflexivity|].
      pose proof (historied_path_exists_pending p path_exists
                    (set_active st false)) as H.
      cbv zeta in H.
      destruct (H p) as [H1 [H2 [H3 [H4 _]]]].
      rewrite H1, H2, H3, H4. repeat split.
      intros q. destruct (H q) as [_ [_ [_ [_ H5]]]]. rewrite H5. reflexivity.
    + exists (set_active st false). repeat split.
      intros q. simpl. now rewrite andb_false_r, orb_false_r.
Qed.

Lemma state_wf_fields (st st1 : global_state) :
  master_history st1 = master_history st ->
  window_histories st1 = window_histories st ->
  state_wf st -> state_wf st1.
Proof. unfold state_wf. intros -> ->. auto. Qed.

(** X16. Choosing a row whose file is gone: [open_file] closes the panel
    and drops the path from the master history and from every window
    history; a path that was not pending removal and is not the chosen one
    keeps its entries. *)
Theorem open_file_drops_missing (rows : list string) (idx : Z)
  (st : global_state) (p : string) :
  state_wf st -> 0 <= idx ->
  nth_error rows (Z.to_nat idx) = Some p ->
  let st' := open_file rows idx false st in
  active st' = false
  /\ dict_get (master_history st') p = None
  /\ (forall id, dict_get (window_get (window_histories st') id) p = None)
  /\ (forall q, q <> p -> pending st q = false ->
        dict_get (master_history st') q = dict_get (master_history st) q
        /\ forall id,
             dict_get (window_get (window_histories st') id) q
             = dict_get (window_get (window_histories st) id) q).
Proof.
  intros Hwf Hidx Hn. cbv zeta.
  destruct (open_file_as_removal rows idx false st)
    as [st1 [-> [Hm [Hw [Ha [_ Hp]]]]]].
  pose proof (state_wf_fields st st1 Hm Hw Hwf) as Hwf1.
  assert (Hpp : pending st1 p = true).
  { rewrite Hp, Hn. destruct (Z.ltb_spec idx 0); [lia|].
    simpl. rewrite String.eqb_refl. apply orb_true_r. }
  assert (Hpq : forall q, q <> p -> pending st q = false -> pending st1 q = false).
  { intros q Hne Hq. rewrite Hp, Hn, Hq.
    apply String.eqb_neq in Hne. rewrite Hne. now rewrite !andb_false_r. }
  unfold remove_paths_to_remove.
  destruct (remove_paths_fields (paths_to_remove st1) st1) as [_ [Hact _]].
  split; [now rewrite Hact|].
  split.
  { destruct (remove_paths_lookup (paths_to_remove st1) st1 p 0 Hwf1)
      as [H1 _].
    rewrite H1. fold (pending st1 p). now rewrite Hpp. }
  split.
  { intros id.
    destruct (remove_paths_lookup (paths_to_remove st1) st1 p id Hwf1)
      as [_ H2].
    rewrite H2. fold (pending st1 p). now rewrite Hpp. }
  intros q Hne Hq. split.
  - destruct (remove_paths_lookup (paths_to_remove st1) st1 q 0 Hwf1)
      as [H1 _].
    rewrite H1. fold (pending st1 q). now rewrite (Hpq q Hne Hq), Hm.
  - intros id.
    destruct (remove_paths_lookup (paths_to_remove st1) st1 q id Hwf1)
      as [_ H2].
    rewrite H2. fold (pending st1 q). now rewrite (Hpq q Hne Hq), Hw.
Qed.

Lemma two_entries_panel_open_wf : state_wf two_entries_panel_open.
Proof.
  split; simpl; [exact two_entries_wf|].
  constructor; [exact two_entries_wf|constructor].
Qed.

(** /b is chosen and not found. *)
Lemma open_file_drops_missing_witness :
  active (open_file ["/a"%string; "/b"%string] 1 false two_entries_panel_open)
  = false.
Proof.
  refine (proj1 (open_file_drops_missing ["/a"%string; "/b"%string] 1
                   two_entries_panel_open "/b"%string
                   two_entries_panel_open_wf _ _)).
  - lia.
  - reflexivity.
Defined.

(** X17. A preview only marks: when the file of the highlighted row is
    gone, [preview_selection] leaves every history as it is and puts the
    path among the pending removals; whichever row is chosen afterwards, or
    none, [open_file] then drops the path from the master history and from
    every window history. *)
Theorem preview_then_close (rows rows' : list string) (idx idx' : Z)
  (path_exists' : bool) (st : global_state) (p : string) :
  state_wf st -> 0 <= idx ->
  nth_error rows (Z.to_nat idx) = Some p ->
  idx' < len rows' ->
  let st1 := preview_selection true rows idx false st in
  let st2 := open_file rows' idx' path_exists' st1 in
  master_history st1 = master_history st
  /\ window_histories st1 = window_histories st
  /\ active st1 = active st
  /\ pending st1 p = true
  /\ active st2 = false
  /\ dict_get (master_history st2) p = None
  /\ forall id, dict_get (window_get (window_histories st2) id) p = None.
Proof.
  intros Hwf Hidx Hn _. cbv zeta.
  assert (Hprev : preview_selection true rows idx false st
                  = snd (historied_path_exists p false st)).
  { unfold preview_selection. rewrite Hn.
    destruct (Z.leb_spec 0 idx); [reflexivity|lia]. }
  rewrite Hprev.
  pose proof (historied_path_exists_pending p false st p) as H.
  cbv zeta in H. destruct H as [Hm [Hw [Ha [_ Hp]]]].
  set (st1 := snd (historied_path_exists p false st)) in *.
  assert (Hpp : pending st1 p = true).
  { rewrite Hp. simpl. rewrite String.eqb_refl. apply orb_true_r. }
  split; [exact Hm|]. split; [exact Hw|]. split; [exact Ha|].
  split; [exact Hpp|].
  pose proof (state_wf_fields st st1 Hm Hw Hwf) as Hwf1.
  destruct (open_file_as_removal rows' idx' path_exists' st1)
    as [st1' [-> [Hm' [Hw' [Ha' [_ Hp']]]]]].
  pose proof (state_wf_fields st1 st1' Hm' Hw' Hwf1) as Hwf1'.
  assert (Hpp' : pending st1' p = true) by (rewrite Hp', Hpp; reflexivity).
  unfold remove_paths_to_remove.
  destruct (remove_paths_fields (paths_to_remove st1') st1') as [_ [Hact _]].
  split; [now rewrite Hact|].
  split.
  - destruct (remove_paths_lookup (paths_to_remove st1') st1' p 0 Hwf1')
      as [H1 _].
    rewrite H1. fold (pending st1' p). now rewrite Hpp'.
  - intros id.
    destruct (remove_paths_lookup (paths_to_remove st1') st1' p id Hwf1')
      as [_ H2].
    rewrite H2. fold (pending st1' p). now rewrite Hpp'.
Qed.

(** /b is highlighted and not found; the panel is cancelled. *)
Lemma preview_then_close_witness :
  dict_get
    (master_history
       (open_file ["/a"%string; "/b"%string] (-1) true
          (preview_selection true ["/a"%string; "/b"%string] 1 false
             two_entries_panel_open))) "/b"
  = None.
Proof.
  destruct (preview_then_close ["/a"%string; "/b"%string]
              ["/a"%string; "/b"%string] 1 (-1) true two_entries_panel_open
              "/b"%string two_entries_panel_open_wf)
    as [_ [_ [_ [_ [_ [H _]]]]]].
  - lia.
  - reflexivity.
  - vm_compute. reflexivity.
  - exact H.
Defined.

(** ** One recording *)

Lemma window_get_wf (ws : list (Z * history)) (id : Z) :
  Forall (fun w => dict_wf (snd w)) ws -> dict_wf (window_get ws id).
Proof.
  induction 1 as [|[id' h] ws Hh Hws IH]; simpl.
  - constructor.
  - destruct (id =? id'); auto.
Qed.

Lemma window_set_wf (ws : list (Z * history)) (id : Z) (h : history) :
  Forall (fun w => dict_wf (snd w)) ws -> dict_wf h ->
  Forall (fun w => dict_wf (snd w)) (window_set ws id h).
Proof.
  induction 1 as [|[id' h'] ws Hh Hws IH]; intros Hwf; simpl.
  - repeat constructor. exact Hwf.
  - destruct (id =? id'); constructor; auto.
Qed.

Lemma seen_state_wf (clock window : Z) (p : string) (now : Z)
  (st : global_state) :
  state_wf st -> state_wf (seen_state clock window p now st).
Proof.
  intros [Hm Hw]. split; simpl.
  - now apply dict_set_wf.
  - apply window_set_wf; [exact Hw|].
    apply dict_set_wf. now apply window_get_wf.
Qed.

Lemma seen_entry_visited (clock : Z) (master : history) (p : string) (now : Z) :
  seen_entry clock master p now = visited (dict_get master p) clock now.
Proof.
  unfold seen_entry, visited, new_history_entry.
  destruct (dict_get master p); simpl; reflexivity.
Qed.

(** X18. One recording of a path that is not pending removal, with or
    without the save it may set off: the master history and the history of
    the window then hold the same entry for the path, the entry found with
    [last_seen = now] and one more insert, or a new one with one insert;
    every other path that is not pending keeps its master entry, whatever
    the bound on the saved entries. *)
Theorem record_seen_path_in_window_frame (max_entries clock window : Z)
  (p : string) (now : Z) (w : world) :
  state_wf (state w) ->
  pending (state w) p = false ->
  let w' := fst (record_seen_path_in_window max_entries clock window p now w) in
  let e := visited (dict_get (master_history (state w)) p) clock now in
  dict_get (master_history (state w')) p = Some e
  /\ dict_get (window_get (window_histories (state w')) window) p = Some e
  /\ forall q, q <> p -> pending (state w) q = false ->
       dict_get (master_history (state w')) q
       = dict_get (master_history (state w)) q.
Proof.
  intros Hwf Hp. cbv zeta. rewrite <- seen_entry_visited.
  unfold record_seen_path_in_window, next_save_cycle.
  pose proof (seen_state_wf clock window p now (state w) Hwf) as Hwf1.
  set (st1 := seen_state clock window p now (state w)) in *.
  assert (H1 : dict_get (master_history st1) p
               = Some (seen_entry clock (master_history (state w)) p now))
    by apply dict_get_set_same.
  assert (H2 : dict_get (window_get (window_histories st1) window) p
               = Some (seen_entry clock (master_history (state w)) p now)).
  { unfold st1, seen_state. cbn [window_histories set_windows set_master].
    rewrite window_get_set_same. apply dict_get_set_same. }
  assert (H3 : forall q, q <> p ->
               dict_get (master_history st1) q
               = dict_get (master_history (state w)) q).
  { intros q Hne. unfold st1, seen_state.
    cbn [master_history set_windows set_master].
    apply dict_get_set_other. congruence. }
  assert (H4 : paths_to_remove st1 = paths_to_remove (state w)) by reflexivity.
  clearbody st1.
  set (st2 := set_save_cycle st1 ((save_cycle st1 + 1) mod SAVE_EVERY)).
  assert (Hwf2 : state_wf st2) by exact Hwf1.
  assert (Hps : forall q, pending st2 q = pending (state w) q).
  { intros q. unfold pending, st2. cbn [paths_to_remove set_save_cycle].
    now rewrite H4. }
  destruct ((save_cycle st1 + 1) mod SAVE_EVERY =? 0).
  - rewrite save_state. cbn [state]. unfold remove_paths_to_remove.
    split; [|split].
    + destruct (remove_paths_lookup (paths_to_remove st2) st2 p window Hwf2)
        as [L _].
      rewrite L. fold (pending st2 p). rewrite Hps, Hp. exact H1.
    + destruct (remove_paths_lookup (paths_to_remove st2) st2 p window Hwf2)
        as [_ L].
      rewrite L. fold (pending st2 p). rewrite Hps, Hp. exact H2.
    + intros q Hne Hq.
      destruct (remove_paths_lookup (paths_to_remove st2) st2 q window Hwf2)
        as [L _].
      rewrite L. fold (pending st2 q). rewrite Hps, Hq. now apply H3.
  - cbn [fst state]. split; [exact H1|]. split; [exact H2|].
    intros q Hne _. now apply H3.
Qed.

(** The fiftieth recording of /x, with its save bounded to one entry. *)
Lemma record_seen_path_in_window_frame_witness :
  dict_get
    (master_history
       (state (fst (record_seen_path_in_window 1 3000 1 "/x" 3000
                      {| state := set_save_cycle two_entries_panel_open 49;
                         disk := NoFile |})))) "/b"
  = Some {| added := 1000; last_seen := 1000; inserts := 1 |}.
Proof.
  destruct (record_seen_path_in_window_frame 1 3000 1 "/x"%string 3000
              {| state := set_save_cycle two_entries_panel_open 49;
                 disk := NoFile |})
    as [_ [_ H]].
  - exact two_entries_panel_open_wf.
  - reflexivity.
  - rewrite (H "/b"%string); [reflexivity|discriminate|reflexivity].
Defined.

(** ** Accuracy of the score *)

(** X19. For a count from 1 up to [2^53] and an age from 1 up to [2^63]
    [frecency] returns a positive finite float that lies within two
    roundings of the exact [count / age * weight]: between
    [exact * (1 - 2^-53)^2] and [exact * (1 + 2^-53)^2]. *)
Theorem frecency_accurate (age count : Z) :
  0 < count < 2 ^ 53 -> 0 < age < 2 ^ 63 ->
  exists m e,
    frecency age count = Ok (S754_finite false m e)
    /\ (exact_score age count * ((1 - u53) * (1 - u53))
        <= PyFloat.to_Q (S754_finite false m e))%Q
    /\ (PyFloat.to_Q (S754_finite false m e)
        <= exact_score age count * ((1 + u53) * (1 + u53)))%Q.
Proof.
  intros Hc Ha.
  destruct (frecency_correct age count Hc Ha) as [m [e [Vq [Hf [_ [H1 H2]]]]]].
  exists m, e. split; [exact Hf|].
  rewrite to_Q_finite. unfold exact_score.
  set (val := (inject_Z (Zpos m) * pow2 e)%Q) in *.
  set (q := (inject_Z count / inject_Z age)%Q) in *.
  clearbody val q. clear Hf Hc Ha.
  unfold rel_close, u53 in *.
  destruct (recency_score_cases age)
    as [[_ E]|[[_ E]|[[_ E]|[[_ E]|[_ E]]]]]; rewrite E in *; clear E;
    match goal with
    | H : context [inject_Z ?n] |- _ =>
        change (inject_Z n) with (n # 1)%Q in *
    end;
    split; lra.
Qed.

(** Five visits at age 100. *)
Lemma frecency_accurate_witness :
  exists m e, frecency 100 5 = Ok (S754_finite false m e).
Proof.
  destruct (frecency_accurate 100 5) as [m [e [H _]]].
  - lia.
  - lia.
  - exists m, e. exact H.
Defined.

(** ** Merging several histories *)

Lemma merge_entry_assoc (a b c : entry) :
  merge_entry (merge_entry a b) c = merge_entry a (merge_entry b c).
Proof. unfold merge_entry. simpl. f_equal; lia. Qed.

(** X20. Merging is associative path by path: merging [C] into the merge
    of [A] and [B] gives every path the entry it gets when the merge of [B]
    and [C] is merged into [A]. *)
Theorem merge_histories_assoc (A B C : history) (p : string) :
  dict_wf B -> dict_wf C ->
  dict_get (merge_histories (merge_histories A B) C) p
  = dict_get (merge_histories A (merge_histories B C)) p.
Proof.
  intros HB HC.
  rewrite (merge_histories_get (merge_histories A B) C p HC).
  rewrite (merge_histories_get A B p HB).
  rewrite (merge_histories_get A (merge_histories B C) p
             (merge_histories_wf B C HB)).
  rewrite (merge_histories_get B C p HC).
  destruct (dict_get A p), (dict_get B p), (dict_get C p);
    try reflexivity.
  now rewrite merge_entry_assoc.
Qed.

Lemma merge_histories_assoc_witness :
  dict_get (merge_histories (merge_histories stored_a in_memory_a) two_entries)
    "/a"
  = dict_get (merge_histories stored_a (merge_histories in_memory_a two_entries))
      "/a".
Proof.
  apply (merge_histories_assoc stored_a in_memory_a two_entries "/a"%string).
  - unfold dict_wf, keys; simpl. repeat constructor; simpl; intuition discriminate.
  - exact two_entries_wf.
Defined.
